(** * SmartEnumCpp: a shallow embedding of the registry and flag decomposer

    The repository holds two generations of each header; all four are
    embedded:

    - [SmartEnumInclude]     : include/SmartEnum.hpp, member functions defined
                               in the class; [List()] sorts by name once
    - [SmartEnum]            : the SmartEnum.hpp with out-of-line member
                               definitions; [List()] returns [instances()]
    - [SmartFlagEnum]        : src/SmartFlagEnum.hpp, out-of-line member
                               definitions; the header the flag claims cite
    - [SmartFlagEnumInClass] : the SmartFlagEnum.hpp with member functions
                               defined in the class

    and with them [SmartEnumSwitch], the builder of src/SmartEnumSwitch.hpp.

    Modelling choices.

    - An instance is the pair of its name and its value.  The C++ code stores
      [const TEnum*]; instances are immutable and, in a registry whose
      constructions all succeeded, names are unique, so equality of the pair
      coincides with pointer identity.
    - [TValue] is [int].  In src/SmartFlagEnum.hpp the only arithmetic is
      [v - 1] under the guard [v > 0]; everything else is [&], [|] and [~],
      which on two's complement integers agree with [Z.land], [Z.lor] and
      [Z.lnot] and stay within [int] (section [int_range]).  Values are
      therefore plain [Z].  The in-class header casts to
      [unsigned long long] and shifts an [int]; there the casts and the
      wrap-around are written out ([to_ull], [wrap_int]).
    - The function-local statics ([instances()], [nameMap()], ...) of a type
      are one record; every member function is a computation in a state and
      exception monad over that record.
    - A [std::string] is a [string]; a position in it is a [nat], and
      [std::string::npos] is [None].
    - [std::sort] is not stable: the order of equivalent elements is not
      specified.  It is therefore an interface ([StdSort]) with the
      guarantees of the C++ standard, and every function that sorts is
      parametric in it. *)

From Stdlib Require Import ZArith String Ascii List Permutation Sorted Lia.
From Stdlib Require OrderedTypeEx.
From stdpp Require Import base decidable option list gmap strings sorting.

Local Open Scope string_scope.
Local Open Scope list_scope.
Local Open Scope Z_scope.

(** ** Instances *)

Record Inst : Type := mkInst { Name : string; Value : Z }.

#[global] Instance Inst_eq_dec : EqDecision Inst.
Proof. solve_decision. Defined.

(** ** Exceptions thrown by the three headers *)

(** The three messages carried by [SmartFlagEnumNotPowerOfTwoException]. *)
Inductive power_of_two_message : Type :=
| flag_not_power_of_two (value : Z) (nm : string)
    (* "Flag value V for flag N is not a power of two" *)
| value_not_power_of_two (value : Z)
    (* "Value V is not a power of two in T" *)
| missing_power_of_two (expected : Z).
    (* "Missing power-of-two flag value E in T" *)

Inductive exception : Type :=
| invalid_argument
    (* std::invalid_argument("... name cannot be empty") *)
| runtime_error (nm : string)
    (* std::runtime_error("Duplicate ... name") *)
| SmartEnumNotFoundException
| InvalidFlagEnumValueParseException
| NegativeFlagValueNotAllowedException (value : Z)
| SmartFlagEnumNotPowerOfTwoException (msg : power_of_two_message).

(** ** State and exception monad *)

Inductive outcome (S A : Type) : Type :=
| Ok (a : A) (s : S)
| Throw (e : exception) (s : S).
Arguments Ok {S A} a s.
Arguments Throw {S A} e s.

Definition M (S A : Type) : Type := S -> outcome S A.

Definition ret {S A} (a : A) : M S A := fun s => Ok a s.

Definition bind {S A B} (m : M S A) (k : A -> M S B) : M S B :=
  fun s => match m s with
           | Ok a s' => k a s'
           | Throw e s' => Throw e s'
           end.

Definition throw {S A} (e : exception) : M S A := fun s => Throw e s.

Definition gets {S A} (f : S -> A) : M S A := fun s => Ok (f s) s.

Definition modify {S} (f : S -> S) : M S unit := fun s => Ok tt (f s).

(** [try { m } catch (...) { h }] *)
Definition try_catch {S A} (m : M S A) (h : M S A) : M S A :=
  fun s => match m s with
           | Ok a s' => Ok a s'
           | Throw _ s' => h s'
           end.

Notation "'let*' x := m 'in' k" := (bind m (fun x => k))
  (at level 10, x pattern, m at level 100, k at level 200).
Notation "m >> k" := (bind m (fun _ => k))
  (at level 90, right associativity).

(** [T* p = nullptr; delete p;] : a delete-expression whose operand is a
    null pointer has no effect; in particular it throws nothing. *)
Definition delete_nullptr {S} : M S unit := ret tt.

(** ** [std::sort]

    [std_sort comp l] is the content of the vector after
    [std::sort(begin, end, comp)].  The standard promises a permutation of
    the input in which no later element is [comp]-before an earlier one,
    provided [comp] is a strict weak ordering. *)

Definition strict_weak_order (comp : Inst -> Inst -> bool) : Prop :=
  (forall a b, comp a b = true -> comp b a = false) /\
  (forall a b c, comp b a = false -> comp c b = false -> comp c a = false).

Definition not_before (comp : Inst -> Inst -> bool) (a b : Inst) : Prop :=
  comp b a = false.

#[global] Instance not_before_dec comp a b : Decision (not_before comp a b).
Proof. unfold not_before. apply _. Defined.

Class StdSort : Type := {
  std_sort : (Inst -> Inst -> bool) -> list Inst -> list Inst;
  std_sort_perm : forall comp l, Permutation (std_sort comp l) l;
  std_sort_sorted : forall comp l,
    strict_weak_order comp -> StronglySorted (not_before comp) (std_sort comp l)
}.

(** ** [::tolower] in the "C" locale, and [std::transform] over a string *)

Definition tolower (c : ascii) : ascii :=
  let n := nat_of_ascii c in
  if ((65 <=? n)%nat && (n <=? 90)%nat)%bool then ascii_of_nat (n + 32) else c.

Fixpoint transform_tolower (s : string) : string :=
  match s with
  | EmptyString => EmptyString
  | String c s' => String (tolower c) (transform_tolower s')
  end.

(** [std::string::empty] *)
Definition empty (s : string) : bool :=
  match s with EmptyString => true | _ => false end.

(** [m.count(k) != 0] on a [std::map] *)
Definition count {K V} `{Countable K} (m : gmap K V) (k : K) : bool :=
  match m !! k with Some _ => true | None => false end.

(** ** [std::string] positions

    A position is a [size_t]; [std::string::npos] is [None]. *)

(** [s.find(c, pos)] for a needle of one character *)
Fixpoint str_find (c : ascii) (s : string) (pos : nat) : option nat :=
  match s with
  | EmptyString => None
  | String a s' =>
      match pos with
      | O => if Ascii.eqb a c then Some O else option_map S (str_find c s' O)
      | S pos' => option_map S (str_find c s' pos')
      end
  end.

(** [s.substr(pos, count)] for [pos <= s.size()]; the count is clipped at the
    end of the string. *)
Definition substr (s : string) (pos : nat) (count : option nat) : string :=
  match count with
  | None => substring pos (String.length s) s
  | Some n => substring pos n s
  end.

(** [s.erase(pos, count)] for [pos <= s.size()]; [s.erase(pos)] is
    [erase s pos None]. *)
Definition erase (s : string) (pos : nat) (count : option nat) : string :=
  match count with
  | None => substring 0 pos s
  | Some n =>
      (substring 0 pos s ++ substring (pos + n) (String.length s) s)%string
  end.

(** [chars] holds [c] *)
Fixpoint holds (chars : string) (c : ascii) : bool :=
  match chars with
  | EmptyString => false
  | String a chars' => Ascii.eqb a c || holds chars' c
  end.

(** [s.find_first_not_of(chars)] *)
Fixpoint find_first_not_of (s chars : string) : option nat :=
  match s with
  | EmptyString => None
  | String c s' =>
      if holds chars c then option_map S (find_first_not_of s' chars)
      else Some O
  end.

(** [s.find_last_not_of(chars)] *)
Fixpoint find_last_not_of (s chars : string) : option nat :=
  match s with
  | EmptyString => None
  | String c s' =>
      match find_last_not_of s' chars with
      | Some i => Some (S i)
      | None => if holds chars c then None else Some O
      end
  end.

(** [pos + 1] on a [size_t]: [npos + 1] wraps around to [0]. *)
Definition succ_pos (pos : option nat) : nat :=
  match pos with None => O | Some i => S i end.

(** The string literal [" \t"] *)
Definition blanks : string := String " " (String "009" EmptyString).

(** ** The statics of a [SmartEnum<TEnum>]: both variants share them *)

Record EnumStatics : Type := mkEnumStatics {
  enum_instances : list Inst;
  enum_nameMap : gmap string Inst;
  enum_nameMapIgnoreCase : gmap string Inst;
  enum_valueMap : gmap Z Inst;
  enum_listInitFlag : bool        (* std::once_flag listInitFlag_ *)
}.

Definition enum_initial : EnumStatics :=
  mkEnumStatics [] ∅ ∅ ∅ false.

Definition push_instance (i : Inst) (s : EnumStatics) : EnumStatics :=
  mkEnumStatics (enum_instances s ++ [i])%list (enum_nameMap s)
    (enum_nameMapIgnoreCase s) (enum_valueMap s) (enum_listInitFlag s).

Definition set_nameMap (i : Inst) (s : EnumStatics) : EnumStatics :=
  mkEnumStatics (enum_instances s) (<[Name i := i]> (enum_nameMap s))
    (enum_nameMapIgnoreCase s) (enum_valueMap s) (enum_listInitFlag s).

Definition set_nameMapIgnoreCase (lower : string) (i : Inst) (s : EnumStatics)
  : EnumStatics :=
  mkEnumStatics (enum_instances s) (enum_nameMap s)
    (<[lower := i]> (enum_nameMapIgnoreCase s)) (enum_valueMap s)
    (enum_listInitFlag s).

Definition set_valueMap (i : Inst) (s : EnumStatics) : EnumStatics :=
  mkEnumStatics (enum_instances s) (enum_nameMap s)
    (enum_nameMapIgnoreCase s) (<[Value i := i]> (enum_valueMap s))
    (enum_listInitFlag s).

Definition when {S} (b : bool) (m : M S unit) : M S unit :=
  if b then m else ret tt.

(** [a->Name() < b->Name()] : [std::string::operator<] *)
Definition name_less (a b : Inst) : bool := String.ltb (Name a) (Name b).

(** ** include/SmartEnum.hpp *)

Module SmartEnumInclude.

(** The instance is pushed on [instances()] before the duplicate test. *)
Definition registerInstance (instance : Inst) : M EnumStatics unit :=
  modify (push_instance instance) >>
  let nm := Name instance in
  let* dup := gets (fun s => count (enum_nameMap s) nm) in
  if dup then throw (runtime_error nm)
  else
    modify (set_nameMap instance) >>
    let lower := transform_tolower nm in
    (let* seen := gets (fun s => count (enum_nameMapIgnoreCase s) lower) in
     when (negb seen) (modify (set_nameMapIgnoreCase lower instance))) >>
    let* seen := gets (fun s => count (enum_valueMap s) (Value instance)) in
    when (negb seen) (modify (set_valueMap instance)).

(** The protected constructor [SmartEnum(name, value)]. *)
Definition SmartEnum (name : string) (value : Z) : M EnumStatics unit :=
  if empty name then throw invalid_argument
  else registerInstance (mkInst name value).

(** [std::call_once(listInitFlag_, sort by name)], then [instances()]. *)
Definition List `{StdSort} : M EnumStatics (list Inst) :=
  (let* done := gets enum_listInitFlag in
   when (negb done)
     (modify (fun s =>
        mkEnumStatics (std_sort name_less (enum_instances s))
          (enum_nameMap s) (enum_nameMapIgnoreCase s) (enum_valueMap s)
          true))) >>
  gets enum_instances.

Definition TryFromNameInternal (name : string) (ignoreCase : bool)
  : M EnumStatics (option Inst) :=
  if empty name then ret None
  else if negb ignoreCase then gets (fun s => enum_nameMap s !! name)
  else
    let lower := transform_tolower name in
    gets (fun s => enum_nameMapIgnoreCase s !! lower).

Definition TryFromValueInternal (value : Z) : M EnumStatics (option Inst) :=
  gets (fun s => enum_valueMap s !! value).

Definition FromName (name : string) (ignoreCase : bool)
  : M EnumStatics Inst :=
  let* result := TryFromNameInternal name ignoreCase in
  match result with
  | None => throw SmartEnumNotFoundException
  | Some x => ret x
  end.

(** The result is the success flag and the out-parameter [outResult]. *)
Definition TryFromName (name : string) (ignoreCase : bool)
  : M EnumStatics (bool * option Inst) :=
  let* outResult := TryFromNameInternal name ignoreCase in
  ret (bool_decide (outResult <> None), outResult).

Definition FromValue (value : Z) : M EnumStatics Inst :=
  let* result := TryFromValueInternal value in
  match result with
  | None => throw SmartEnumNotFoundException
  | Some x => ret x
  end.

Definition TryFromValue (value : Z) : M EnumStatics (bool * option Inst) :=
  let* outResult := TryFromValueInternal value in
  ret (bool_decide (outResult <> None), outResult).

End SmartEnumInclude.

(** ** The second SmartEnum.hpp (out-of-line member definitions) *)

Module SmartEnum.

(** Here the duplicate test comes first, so a failed registration leaves
    the statics untouched.  ([if (!instance) return;] never fires: the
    argument is [this].) *)
Definition registerInstance (instance : Inst) : M EnumStatics unit :=
  let nm := Name instance in
  let* dup := gets (fun s => count (enum_nameMap s) nm) in
  if dup then throw (runtime_error nm)
  else
    modify (push_instance instance) >>
    modify (set_nameMap instance) >>
    let lower := transform_tolower nm in
    (let* seen := gets (fun s => count (enum_nameMapIgnoreCase s) lower) in
     when (negb seen) (modify (set_nameMapIgnoreCase lower instance))) >>
    let* seen := gets (fun s => count (enum_valueMap s) (Value instance)) in
    when (negb seen) (modify (set_valueMap instance)).

Definition SmartEnum (name : string) (value : Z) : M EnumStatics unit :=
  if empty name then throw invalid_argument
  else registerInstance (mkInst name value).

Definition List : M EnumStatics (list Inst) := gets enum_instances.

Definition TryFromNameInternal (name : string) (ignoreCase : bool)
  : M EnumStatics (option Inst) :=
  if ignoreCase then
    let lower := transform_tolower name in
    gets (fun s => enum_nameMapIgnoreCase s !! lower)
  else gets (fun s => enum_nameMap s !! name).

Definition TryFromValueInternal (value : Z) : M EnumStatics (option Inst) :=
  gets (fun s => enum_valueMap s !! value).

Definition TryFromName (name : string) (ignoreCase : bool)
  : M EnumStatics (bool * option Inst) :=
  let* outResult := TryFromNameInternal name ignoreCase in
  ret (bool_decide (outResult <> None), outResult).

Definition FromName (name : string) (ignoreCase : bool)
  : M EnumStatics Inst :=
  let* r := TryFromName name ignoreCase in
  match r with
  | (true, Some x) => ret x
  | _ => throw SmartEnumNotFoundException
  end.

Definition TryFromValue (value : Z) : M EnumStatics (bool * option Inst) :=
  let* outResult := TryFromValueInternal value in
  ret (bool_decide (outResult <> None), outResult).

Definition FromValue (value : Z) : M EnumStatics Inst :=
  let* r := TryFromValue value in
  match r with
  | (true, Some x) => ret x
  | _ => throw SmartEnumNotFoundException
  end.

End SmartEnum.

(** ** src/SmartFlagEnum.hpp (out-of-line member definitions) *)

(** A flag type as its author writes it: the marker structs the derived
    class inherits from, and the static instance definitions in the order of
    their construction. *)
Record FlagType : Type := mkFlagType {
  AllowNegativeFlagEnumInput : bool;
  AllowUnsafeFlagEnumValues : bool;
  definitions : list (string * Z)
}.

(** The statics of a [SmartFlagEnum<TEnum>]: both headers share them. *)
Record FlagStatics : Type := mkFlagStatics {
  instances : list Inst;
  nameMap : gmap string Inst;
  nameMapIgnoreCase : gmap string Inst;
  valueMap : gmap Z Inst;
  definitionsValidated : bool
}.

Definition initial : FlagStatics := mkFlagStatics [] ∅ ∅ ∅ false.

Definition set_validated (b : bool) (s : FlagStatics) : FlagStatics :=
  mkFlagStatics (instances s) (nameMap s) (nameMapIgnoreCase s) (valueMap s) b.

(** In this header no member of [SmartFlagEnum<TEnum, TValue>] inspects the
    bases of [TEnum]: the functions do not take the type. *)
Module SmartFlagEnum.

Definition isPowerOfTwo (v : Z) : bool :=
  (0 <? v) && (Z.land v (v - 1) =? 0).

Definition registerInstance (instance : Inst) : M FlagStatics unit :=
  let nm := Name instance in
  let* dup := gets (fun s => count (nameMap s) nm) in
  if dup then throw (runtime_error nm)
  else
    modify (fun s => mkFlagStatics (instances s ++ [instance])%list
                       (<[nm := instance]> (nameMap s))
                       (nameMapIgnoreCase s) (valueMap s)
                       (definitionsValidated s)) >>
    let lower := transform_tolower nm in
    (let* seen := gets (fun s => count (nameMapIgnoreCase s) lower) in
     when (negb seen)
       (modify (fun s => mkFlagStatics (instances s) (nameMap s)
                           (<[lower := instance]> (nameMapIgnoreCase s))
                           (valueMap s) (definitionsValidated s)))) >>
    let val := Value instance in
    let* seen := gets (fun s => count (valueMap s) val) in
    when (negb seen)
      (modify (fun s => mkFlagStatics (instances s) (nameMap s)
                          (nameMapIgnoreCase s)
                          (<[val := instance]> (valueMap s))
                          (definitionsValidated s))).

(** The protected constructor [SmartFlagEnum(name, value)]. *)
Definition SmartFlagEnum (name : string) (value : Z) : M FlagStatics unit :=
  if empty name then throw invalid_argument
  else registerInstance (mkInst name value).

(** The body of [for (instance : instances())] in [enforceFlagDefinitions]:
    on the first value that is not a power of two the [try] block deletes a
    null pointer and leaves the loop by [break]; the handler would throw. *)
Fixpoint enforce_loop (l : list Inst) : M FlagStatics unit :=
  match l with
  | [] => ret tt
  | instance :: rest =>
      let value := Value instance in
      if negb (isPowerOfTwo value) then
        try_catch
          (delete_nullptr >> ret tt)
          (throw (SmartFlagEnumNotPowerOfTwoException
                    (flag_not_power_of_two value (Name instance))))
      else enforce_loop rest
  end.

Definition enforceFlagDefinitions : M FlagStatics unit :=
  let* validated := gets definitionsValidated in
  if validated then ret tt
  else
    (let* l := gets instances in enforce_loop l) >>
    modify (set_validated true).

Definition List : M FlagStatics (list Inst) :=
  enforceFlagDefinitions >> gets instances.

Definition fitsInDefinedFlags (input : Z) : M FlagStatics bool :=
  let* l := gets instances in
  let allFlags := fold_left (fun acc instance => Z.lor acc (Value instance)) l 0 in
  ret (Z.land input (Z.lnot allFlags) =? 0).

(** [a->Value() > b->Value()] *)
Definition value_greater (a b : Inst) : bool := Value b <? Value a.

(** The body of [for (flag : sortedFlags)]: the pair is
    [(remainingValue, outResult)]. *)
Fixpoint decompose_loop (sortedFlags : list Inst) (remainingValue : Z)
  (outResult : list Inst) : Z * list Inst :=
  match sortedFlags with
  | [] => (remainingValue, outResult)
  | flag :: rest =>
      let flagValue := Value flag in
      let '(remainingValue, outResult) :=
        if Z.land remainingValue flagValue =? flagValue
        then (Z.land remainingValue (Z.lnot flagValue), (outResult ++ [flag])%list)
        else (remainingValue, outResult) in
      if remainingValue =? 0 then (remainingValue, outResult)
      else decompose_loop rest remainingValue outResult
  end.

(** The result is the returned flag and the out-parameter [outResult], which
    the function clears before anything else can return. *)
Definition TryFromValue `{StdSort} (value : Z)
  : M FlagStatics (bool * list Inst) :=
  enforceFlagDefinitions >>
  let* it := gets (fun s => valueMap s !! value) in
  match it with
  | Some found => ret (true, [found])
  | None =>
      if value <? 0 then
        try_catch
          (delete_nullptr >> ret (false, []))
          (throw (NegativeFlagValueNotAllowedException value))
      else
        let* fits := fitsInDefinedFlags value in
        if fits then
          let* allFlags := List in
          let sortedFlags := std_sort value_greater allFlags in
          let '(remainingValue, outResult) :=
            decompose_loop sortedFlags value [] in
          ret (remainingValue =? 0, outResult)
        else ret (false, [])
  end.

Definition FromValue `{StdSort} (value : Z) : M FlagStatics (list Inst) :=
  let* r := TryFromValue value in
  if fst r then ret (snd r)
  else throw InvalidFlagEnumValueParseException.

(** [for (i = 0; i < flags.size(); ++i)] of [TryFromValueToString]. *)
Fixpoint join_loop (flags : list Inst) (i : nat) (outStr : string) : string :=
  match flags with
  | [] => outStr
  | flag :: rest =>
      let outStr := if (0 <? i)%nat then (outStr ++ ", ")%string else outStr in
      join_loop rest (S i) (outStr ++ Name flag)%string
  end.

(** [outStr] is an in-out parameter: it is left alone on failure. *)
Definition TryFromValueToString `{StdSort} (value : Z) (outStr : string)
  : M FlagStatics (bool * string) :=
  let* r := TryFromValue value in
  if negb (fst r) then ret (false, outStr)
  else ret (true, join_loop (snd r) 0 "").

Definition FromValueToString `{StdSort} (value : Z) : M FlagStatics string :=
  let* r := TryFromValueToString value "" in
  if negb (fst r) then throw InvalidFlagEnumValueParseException
  else ret (snd r).

(** [operator|] on two flags: the result is a [TValue], not a flag. *)
Definition operator_or (a b : Inst) : Z := Z.lor (Value a) (Value b).

Definition findByName (name : string) : M FlagStatics (option Inst) :=
  gets (fun s => nameMap s !! name).

Definition findByNameCaseInsensitive (name : string)
  : M FlagStatics (option Inst) :=
  let lower := transform_tolower name in
  gets (fun s => nameMapIgnoreCase s !! lower).

(** The two [erase] calls under "Trim whitespace" in [TryFromName]. *)
Definition trim (part : string) : string :=
  let part := erase part 0 (find_first_not_of part blanks) in
  erase part (succ_pos (find_last_not_of part blanks)) None.

(** The [do { ... } while (end != npos)] of [TryFromName].  Every round
    moves [start] behind the next comma, so the loop runs at most once per
    character and once more; [fuel] counts the rounds left, and [None] is
    the answer of a loop that was given too few. *)
Fixpoint TryFromName_loop (fuel : nat) (names : string) (ignoreCase : bool)
  (start : nat) (outResult : list Inst)
  : M FlagStatics (option (bool * list Inst)) :=
  match fuel with
  | O => ret None
  | S fuel =>
      let end_ := str_find "," names start in
      let part :=
        substr names start
          (match end_ with None => None | Some e => Some (e - start)%nat end) in
      let part := trim part in
      let next outResult :=
        match end_ with
        | None => ret (Some (true, outResult))
        | Some e => TryFromName_loop fuel names ignoreCase (e + 1) outResult
        end in
      if negb (empty part) then
        let* foundFlag :=
          if ignoreCase then findByNameCaseInsensitive part
          else findByName part in
        match foundFlag with
        | None => ret (Some (false, outResult))
        | Some flag => next (outResult ++ [flag])%list
        end
      else next outResult
  end.

(** The result is the returned flag and the out-parameter [outResult]; on
    an unknown name the flags found so far stay in [outResult]. *)
Definition TryFromName (names : string) (ignoreCase : bool)
  : M FlagStatics (bool * list Inst) :=
  if empty names then ret (true, [])
  else
    let* r := TryFromName_loop (S (String.length names)) names ignoreCase 0 [] in
    match r with
    | Some r => ret r
    | None => ret (false, [])       (* not reached: [TryFromName_loop_fuel] *)
    end.

Definition FromName (names : string) (ignoreCase : bool)
  : M FlagStatics (list Inst) :=
  let* r := TryFromName names ignoreCase in
  if negb (fst r) then throw InvalidFlagEnumValueParseException
  else ret (snd r).

End SmartFlagEnum.

(** ** src/SmartEnumSwitch.hpp

    The actions are [std::function<void()>] and are taken to return: they
    act on the rest of the program, here a state of type [W].  A call chain
    [SwitchOn(v).When(a).Then(f).Default(g)] threads the builder and that
    state. *)

Module SmartEnumSwitch.

Record SmartEnumSwitchBuilder : Type := mkBuilder {
  value_ : Inst;
  handled_ : bool;
  lastMatch_ : bool
}.

(** [value_ == candidate] : [SmartEnum::operator==] compares the values. *)
Definition equals (a b : Inst) : bool := Value a =? Value b.

Definition SwitchOn (enumValue : Inst) : SmartEnumSwitchBuilder :=
  mkBuilder enumValue false false.

Definition When (candidate : Inst) (b : SmartEnumSwitchBuilder)
  : SmartEnumSwitchBuilder :=
  if negb (handled_ b) && equals (value_ b) candidate
  then mkBuilder (value_ b) (handled_ b) true
  else mkBuilder (value_ b) (handled_ b) false.

Definition Then {W} (action : W -> W) (bw : SmartEnumSwitchBuilder * W)
  : SmartEnumSwitchBuilder * W :=
  let '(b, w) := bw in
  if negb (handled_ b) && lastMatch_ b
  then (mkBuilder (value_ b) true false, action w)
  else (mkBuilder (value_ b) (handled_ b) false, w).

Definition Default {W} (action : W -> W) (bw : SmartEnumSwitchBuilder * W)
  : W :=
  let '(b, w) := bw in
  if negb (handled_ b) then action w else w.

(** A call on the builder that returns the builder. *)
Inductive call (W : Type) : Type :=
| call_When (candidate : Inst)
| call_Then (action : W -> W).
Arguments call_When {W} candidate.
Arguments call_Then {W} action.

Definition do_call {W} (bw : SmartEnumSwitchBuilder * W) (c : call W)
  : SmartEnumSwitchBuilder * W :=
  match c with
  | call_When candidate => (When candidate (fst bw), snd bw)
  | call_Then action => Then action bw
  end.

(** [SwitchOn(v).c1.c2. ... .cn] *)
Definition chain {W} (enumValue : Inst) (calls : list (call W)) (w : W)
  : SmartEnumSwitchBuilder * W :=
  fold_left do_call calls (SwitchOn enumValue, w).

(** [.When(c1).Then(a1). ... .When(cn).Then(an)] *)
Definition cases {W} (l : list (Inst * (W -> W))) : list (call W) :=
  flat_map (fun ca => [call_When (fst ca); call_Then (snd ca)]) l.

End SmartEnumSwitch.

(** ** The SmartFlagEnum.hpp with in-class member definitions

    The repository holds a second SmartFlagEnum.hpp, of the generation of
    include/SmartEnum.hpp (its text follows the example in
    src/examples/polymorphic_smart_enum.cpp).  It reads the markers of
    [TEnum] through [std::is_base_of], so its functions take the type. *)

(** [(unsigned long long) v] *)
Definition to_ull (v : Z) : Z := v mod 2 ^ 64.

(** The value of an [int] expression whose mathematical result is [v]. *)
Definition wrap_int (v : Z) : Z := (v + 2 ^ 31) mod 2 ^ 32 - 2 ^ 31.

Module SmartFlagEnumInClass.

Definition isPowerOfTwo (v : Z) : bool :=
  let x := to_ull v in
  negb (x =? 0) && (Z.land x (to_ull (x - 1)) =? 0).

(** As in include/SmartEnum.hpp the instance is pushed before the duplicate
    test; a registration resets [definitionsValidated]. *)
Definition registerInstance (instance : Inst) : M FlagStatics unit :=
  modify (fun s => mkFlagStatics (instances s ++ [instance]) (nameMap s)
                     (nameMapIgnoreCase s) (valueMap s)
                     (definitionsValidated s)) >>
  let nm := Name instance in
  let* dup := gets (fun s => count (nameMap s) nm) in
  if dup then throw (runtime_error nm)
  else
    modify (fun s => mkFlagStatics (instances s) (<[nm := instance]> (nameMap s))
                       (nameMapIgnoreCase s) (valueMap s)
                       (definitionsValidated s)) >>
    let lower := transform_tolower nm in
    (let* seen := gets (fun s => count (nameMapIgnoreCase s) lower) in
     when (negb seen)
       (modify (fun s => mkFlagStatics (instances s) (nameMap s)
                           (<[lower := instance]> (nameMapIgnoreCase s))
                           (valueMap s) (definitionsValidated s)))) >>
    let val := Value instance in
    (let* seen := gets (fun s => count (valueMap s) val) in
     when (negb seen)
       (modify (fun s => mkFlagStatics (instances s) (nameMap s)
                           (nameMapIgnoreCase s)
                           (<[val := instance]> (valueMap s))
                           (definitionsValidated s)))) >>
    modify (set_validated false).

Definition SmartFlagEnum (name : string) (value : Z) : M FlagStatics unit :=
  if empty name then throw invalid_argument
  else registerInstance (mkInst name value).

(** [(long long)a->Value() < (long long)b->Value()] *)
Definition value_less (a b : Inst) : bool := Value a <? Value b.

(** [for (e : instances())] of [enforceFlagDefinitions]: collects
    [baseFlags]. *)
Fixpoint collect_baseFlags (allowUnsafe : bool) (l : list Inst)
  (baseFlags : list Z) : M FlagStatics (list Z) :=
  match l with
  | [] => ret baseFlags
  | e :: rest =>
      let val := Value e in
      if (val =? 0) || (val =? -1) then
        collect_baseFlags allowUnsafe rest baseFlags
      else if isPowerOfTwo val then
        collect_baseFlags allowUnsafe rest (baseFlags ++ [val])
      else if negb allowUnsafe then
        throw (SmartFlagEnumNotPowerOfTwoException (value_not_power_of_two val))
      else collect_baseFlags allowUnsafe rest baseFlags
  end.

(** [for (flag : baseFlags)] of [enforceFlagDefinitions]; [expected <<= 1]
    is an [int] shift. *)
Fixpoint check_sequence (allowUnsafe : bool) (baseFlags : list Z)
  (expected : Z) : M FlagStatics unit :=
  match baseFlags with
  | [] => ret tt
  | flag :: rest =>
      if negb (flag =? expected) && negb allowUnsafe then
        throw (SmartFlagEnumNotPowerOfTwoException
                 (missing_power_of_two expected))
      else
        check_sequence allowUnsafe rest
          (if 0 <? expected then wrap_int (Z.shiftl expected 1) else expected)
  end.

(** [std::sort(baseFlags.begin(), baseFlags.end())] sorts integers: the
    result is the same for every sorting algorithm. *)
Definition enforceFlagDefinitions `{StdSort} (TEnum : FlagType)
  : M FlagStatics unit :=
  let* validated := gets definitionsValidated in
  if validated then ret tt
  else
    modify (fun s => mkFlagStatics (std_sort value_less (instances s))
                       (nameMap s) (nameMapIgnoreCase s) (valueMap s)
                       (definitionsValidated s)) >>
    let allowUnsafe := AllowUnsafeFlagEnumValues TEnum in
    let* l := gets instances in
    let* baseFlags := collect_baseFlags allowUnsafe l [] in
    match baseFlags with
    | [] => ret tt
    | _ => check_sequence allowUnsafe (merge_sort Z.le baseFlags) 1
    end >>
    modify (set_validated true).

Definition List `{StdSort} (TEnum : FlagType) : M FlagStatics (list Inst) :=
  enforceFlagDefinitions TEnum >> gets instances.

(** [for (e : instances())] of [fitsInDefinedFlags]: the largest flag. *)
Fixpoint max_flag (l : list Inst) (maxFlag : Z) : Z :=
  match l with
  | [] => maxFlag
  | e :: rest =>
      let val := Value e in
      if (val =? 0) || (val =? -1) then max_flag rest maxFlag
      else if isPowerOfTwo val && (maxFlag <? to_ull val)
      then max_flag rest (to_ull val)
      else max_flag rest maxFlag
  end.

Definition fitsInDefinedFlags (input : Z) : M FlagStatics bool :=
  let* l := gets instances in
  let maxFlag := max_flag l 0 in
  if maxFlag =? 0 then ret true
  else
    let mask := to_ull (to_ull (Z.shiftl maxFlag 1) - 1) in
    let bits := to_ull input in
    ret (Z.land bits (to_ull (Z.lnot mask)) =? 0).

Definition TryFromValue `{StdSort} (TEnum : FlagType) (value : Z)
  : M FlagStatics (bool * list Inst) :=
  enforceFlagDefinitions TEnum >>
  let allowNegative := AllowNegativeFlagEnumInput TEnum in
  let valInt := value in
  if (valInt <? 0) && negb (valInt =? -1) && negb allowNegative
  then ret (false, [])
  else
    let* itExact := gets (fun s => valueMap s !! value) in
    match itExact with
    | Some found => ret (true, [found])
    | None =>
        if valInt =? -1 then
          let* l := gets instances in
          let outResult := List.filter (fun e => negb (Value e =? 0)) l in
          ret (negb (bool_decide (outResult = [])), outResult)
        else
          let* fits := fitsInDefinedFlags value in
          if negb fits then ret (false, [])
          else
            let* l := gets instances in
            let outResult :=
              List.filter
                (fun flag =>
                   let flagVal := Value flag in
                   negb ((flagVal =? 0) || (flagVal =? -1))
                   && isPowerOfTwo flagVal
                   && (Z.land value flagVal =? flagVal)) l in
            if bool_decide (outResult = []) then ret (false, [])
            else ret (true, outResult)
    end.

Definition FromValue `{StdSort} (TEnum : FlagType) (value : Z)
  : M FlagStatics (list Inst) :=
  let* r := TryFromValue TEnum value in
  if fst r then ret (snd r)
  else throw SmartEnumNotFoundException.

End SmartFlagEnumInClass.

(** ** Static initialisation of a type: its constructors run in order *)

Fixpoint construct_all {S} (ctor : string -> Z -> M S unit)
  (defs : list (string * Z)) : M S unit :=
  match defs with
  | [] => ret tt
  | (name, value) :: rest => ctor name value >> construct_all ctor rest
  end.

Definition instance_of (d : string * Z) : Inst := mkInst (fst d) (snd d).

(** ** Notions used to state the properties *)

(** "First registrant wins": the first instance, in registration order, with
    a given value or exact name. *)
Definition first_with_value (v : Z) (l : list Inst) : option Inst :=
  find (fun i => Value i =? v) l.

Definition first_with_name (n : string) (l : list Inst) : option Inst :=
  find (fun i => String.eqb (Name i) n) l.

(** An index [m] over the list [l]: every key is mapped to the first element
    of [l] that carries it. *)
Definition indexes {K} `{Countable K} (key : Inst -> K) (eqb : K -> K -> bool)
  (m : gmap K Inst) (l : list Inst) : Prop :=
  forall k, m !! k = find (fun x => eqb (key x) k) l.

Definition lower_name (i : Inst) : string := transform_tolower (Name i).

(** The three indices of a flag type agree with its instance list. *)
Record flag_registry_ok (s : FlagStatics) : Prop := {
  flag_ok_value : indexes Value Z.eqb (valueMap s) (instances s);
  flag_ok_name : indexes Name String.eqb (nameMap s) (instances s);
  flag_ok_lower :
    indexes lower_name String.eqb (nameMapIgnoreCase s) (instances s)
}.

(** Static initialisation of a flag type under src/SmartFlagEnum.hpp. *)
Definition flag_initialise (T : FlagType) : outcome FlagStatics unit :=
  construct_all SmartFlagEnum.SmartFlagEnum (definitions T) initial.

Definition state_of {S A} (o : outcome S A) : S :=
  match o with Ok _ s => s | Throw _ s => s end.

(** What [allFlags] holds after the loop of [fitsInDefinedFlags]. *)
Definition union_of (l : list Inst) : Z :=
  fold_left (fun acc instance => Z.lor acc (Value instance)) l 0.

Definition fits (input : Z) (l : list Inst) : bool :=
  Z.land input (Z.lnot (union_of l)) =? 0.

(** The value [TryFromValue] of src/SmartFlagEnum.hpp returns, branch by
    branch. *)
Definition TryFromValue_result `{StdSort} (value : Z) (s : FlagStatics)
  : bool * list Inst :=
  match valueMap s !! value with
  | Some found => (true, [found])
  | None =>
      if value <? 0 then (false, [])
      else if fits value (instances s) then
        let r :=
          SmartFlagEnum.decompose_loop
            (std_sort SmartFlagEnum.value_greater (instances s)) value []
        in (fst r =? 0, snd r)
      else (false, [])
  end.

(** The declared flags proper: the instances whose value is a power of
    two. *)
Definition single_bit_flags (l : list Inst) : list Inst :=
  List.filter (fun f => SmartFlagEnum.isPowerOfTwo (Value f)) l.

(** The values of [int]. *)
Definition in_int (x : Z) : Prop := - 2 ^ 31 <= x < 2 ^ 31.

(** A list of instances ordered descending by value. *)
Definition descending (l : list Inst) : Prop :=
  StronglySorted (fun a b => Value a >= Value b) l.

(** A list of instances ordered ascending by name. *)
Definition ascending_by_name (l : list Inst) : Prop :=
  StronglySorted (fun a b => String.leb (Name a) (Name b) = true) l.

(** ** The flag types of the repository's tests and of the specification *)

(** test: [class Flags : SmartFlagEnum<Flags>, AllowNegativeFlagEnumInput] *)
Definition Flags : FlagType :=
  mkFlagType true false
    [("None", 0); ("A", 1); ("B", 2); ("C", 4); ("AB", 3); ("All", -1)].

(** test: [class NoNegFlags : SmartFlagEnum<NoNegFlags>] *)
Definition NoNegFlags : FlagType :=
  mkFlagType false false [("X", 1); ("Y", 2)].

(** test: [class SparseFlags : ..., AllowUnsafeFlagEnumValues] *)
Definition SparseFlags : FlagType :=
  mkFlagType false true [("Bit1", 1); ("Bit3", 4)].

(** Strict flags {A=1, B=2, C=4}, no marker. *)
Definition StrictABC : FlagType :=
  mkFlagType false false [("A", 1); ("B", 2); ("C", 4)].

(** {A=1, B=3}, no marker: 3 is neither a power of two nor a sentinel. *)
Definition NotPow2 : FlagType :=
  mkFlagType false false [("A", 1); ("B", 3)].

(** {A=1, C=4}, no marker: the bit 2 is missing. *)
Definition Gap : FlagType :=
  mkFlagType false false [("A", 1); ("C", 4)].

(** {None=0, A=1, B=2} with [AllowNegativeFlagEnumInput], no -1 instance. *)
Definition NegNoAll : FlagType :=
  mkFlagType true false [("None", 0); ("A", 1); ("B", 2)].

(** {A=1, All=-1} with [AllowNegativeFlagEnumInput]. *)
Definition OneAndAll : FlagType :=
  mkFlagType true false [("A", 1); ("All", -1)].

(** test: [FirstNamespace::Options] and [SecondNamespace::Options] *)
Definition FirstOptions : FlagType :=
  mkFlagType false false
    [("OptionA", 1); ("OptionB", 2); ("OptionC", 4); ("OptionD", 8)].

Definition SecondOptions : FlagType :=
  mkFlagType true false [("Basic", 1); ("Advanced", 2); ("All", -1)].

(** The statics of a type after its static initialisation. *)
Definition statics (T : FlagType) : FlagStatics :=
  state_of (flag_initialise T).

(** The same under the header with in-class member definitions. *)
Definition inclass_statics (T : FlagType) : FlagStatics :=
  state_of (construct_all SmartFlagEnumInClass.SmartFlagEnum (definitions T)
              initial).

(** The exception an operation throws, if it throws. *)
Definition thrown {S A} (o : outcome S A) : option exception :=
  match o with Ok _ _ => None | Throw e _ => Some e end.

(** The effect of a successful [registerInstance], the same in both
    [SmartEnum] headers. *)
Definition registered (i : Inst) (s s' : EnumStatics) : Prop :=
  enum_nameMap s !! Name i = None
  /\ enum_instances s' = enum_instances s ++ [i]
  /\ enum_nameMap s' = <[Name i := i]> (enum_nameMap s)
  /\ enum_nameMapIgnoreCase s'
     = (if negb (count (enum_nameMapIgnoreCase s) (lower_name i))
        then <[lower_name i := i]> (enum_nameMapIgnoreCase s)
        else enum_nameMapIgnoreCase s)
  /\ enum_valueMap s'
     = (if negb (count (enum_valueMap s) (Value i))
        then <[Value i := i]> (enum_valueMap s)
        else enum_valueMap s)
  /\ enum_listInitFlag s' = enum_listInitFlag s.

(** ** Histories of a [SmartEnum] type

    [l] is the list of the instances whose construction succeeded, in the
    order of their construction, and [s] the statics reached.  A constructor
    that throws ends static initialisation, so only successful constructions
    extend a history.  For include/SmartEnum.hpp the calls of [List()] are
    part of the history, because the first one reorders [instances()]. *)

Inductive include_history `{StdSort} : list Inst -> EnumStatics -> Prop :=
| include_history_initial : include_history [] enum_initial
| include_history_construct l s name value s' :
    include_history l s ->
    SmartEnumInclude.SmartEnum name value s = Ok tt s' ->
    include_history (l ++ [mkInst name value]) s'
| include_history_List l s r s' :
    include_history l s ->
    SmartEnumInclude.List s = Ok r s' ->
    include_history l s'.

Inductive enum_history : list Inst -> EnumStatics -> Prop :=
| enum_history_initial : enum_history [] enum_initial
| enum_history_construct l s name value s' :
    enum_history l s ->
    SmartEnum.SmartEnum name value s = Ok tt s' ->
    enum_history (l ++ [mkInst name value]) s'.

(** The indices of a [SmartEnum] type agree with its history. *)
Record enum_registry_ok (l : list Inst) (s : EnumStatics) : Prop := {
  enum_ok_value : indexes Value Z.eqb (enum_valueMap s) l;
  enum_ok_name : indexes Name String.eqb (enum_nameMap s) l;
  enum_ok_lower : indexes lower_name String.eqb (enum_nameMapIgnoreCase s) l;
  enum_ok_instances : Permutation (enum_instances s) l;
  enum_ok_names : NoDup (map Name l);
  enum_ok_nonempty : Forall (fun x => empty (Name x) = false) l
}.

(** The value an operation returns, if it returns. *)
Definition returned {S A} (o : outcome S A) : option A :=
  match o with Ok a _ => Some a | Throw _ _ => None end.

(** test: [class TestEnum : SmartEnum<TestEnum>] *)
Definition TestEnum : list (string * Z) :=
  [("One", 1); ("Two", 2); ("Three", 3)].

(** Two names for one value. *)
Definition SharedValue : list (string * Z) := [("A", 1); ("B", 1)].

Definition include_statics (defs : list (string * Z)) : EnumStatics :=
  state_of (construct_all SmartEnumInclude.SmartEnum defs enum_initial).

Definition enum_statics (defs : list (string * Z)) : EnumStatics :=
  state_of (construct_all SmartEnum.SmartEnum defs enum_initial).

(** ** Notions used to state the further properties *)

(** [y] is the first element of [l] that satisfies [matches]. *)
Definition first_match (matches : Inst -> Prop) (l : list Inst) (y : Inst)
  : Prop :=
  exists l1 l2,
    l = l1 ++ y :: l2 /\ matches y /\ Forall (fun x => ~ matches x) l1.

(** What a name given to [FromName] matches. *)
Definition name_matches (n : string) (ignoreCase : bool) (x : Inst) : Prop :=
  if ignoreCase then lower_name x = transform_tolower n else Name x = n.

(** The first instance of [l] that a name given to [FromName] matches. *)
Definition first_matching_name (n : string) (ignoreCase : bool)
  (l : list Inst) : option Inst :=
  if ignoreCase
  then find (fun x => String.eqb (lower_name x) (transform_tolower n)) l
  else first_with_name n l.

(** No two flags of [l] share a bit. *)
Definition disjoint_values (l : list Inst) : Prop :=
  ForallOrdPairs (fun f g => Z.land (Value f) (Value g) = 0) l.

(** [f] has a bit, and all its bits are bits of [v]. *)
Definition contained (v : Z) (f : Inst) : bool :=
  negb (Value f =? 0) && (Z.land v (Value f) =? Value f).

(** [s] without its first [n] characters *)
Fixpoint str_drop (n : nat) (s : string) : string :=
  match n, s with
  | O, _ => s
  | S _, EmptyString => EmptyString
  | S n', String _ s' => str_drop n' s'
  end.

(** The parts of [s] between its commas. *)
Fixpoint split_commas (s : string) : list string :=
  match s with
  | EmptyString => [EmptyString]
  | String c s' =>
      if Ascii.eqb c "," then EmptyString :: split_commas s'
      else match split_commas s' with
           | part :: parts => String c part :: parts
           | [] => [String c EmptyString]
           end
  end.

(** The names [TryFromName] looks up: the trimmed parts that are not
    empty. *)
Definition tokens (names : string) : list string :=
  List.filter (fun part => negb (empty part))
    (map SmartFlagEnum.trim (split_commas names)).

(** Looking the tokens up one after the other, up to the first unknown
    one. *)
Fixpoint resolve (lookup : string -> option Inst) (tokens : list string)
  (outResult : list Inst) : bool * list Inst :=
  match tokens with
  | [] => (true, outResult)
  | token :: rest =>
      match lookup token with
      | None => (false, outResult)
      | Some flag => resolve lookup rest (outResult ++ [flag])
      end
  end.

(** [findByNameCaseInsensitive] or [findByName], as a function of the
    statics. *)
Definition name_lookup (s : FlagStatics) (ignoreCase : bool) (part : string)
  : option Inst :=
  if ignoreCase then nameMapIgnoreCase s !! transform_tolower part
  else nameMap s !! part.

(** A name that [TryFromName] reads back as it is: no comma, no blank at
    either end (and so not empty). *)
Definition plain_name (n : string) : Prop :=
  str_find "," n 0 = None
  /\ find_first_not_of n blanks = Some O
  /\ find_last_not_of n blanks = Some (Nat.pred (String.length n)).

(** * Proofs *)

(** ** A sorting function that meets the [std::sort] contract *)

Section std_sort_instance.

Lemma not_before_total comp :
  strict_weak_order comp -> Total (not_before comp).
Proof.
  intros [Hasym _] a b. unfold not_before.
  destruct (comp b a) eqn:E; [right; by apply Hasym | by left].
Qed.

Lemma not_before_trans comp :
  strict_weak_order comp -> Transitive (not_before comp).
Proof. intros [_ Htrans] a b c Hab Hbc. unfold not_before in *. eauto. Qed.

Lemma merge_sort_sorted comp l :
  strict_weak_order comp ->
  StronglySorted (not_before comp) (merge_sort (not_before comp) l).
Proof.
  intros Hswo.
  apply (@StronglySorted_merge_sort _ _ _ (not_before_trans _ Hswo)
           (not_before_total _ Hswo)).
Qed.

End std_sort_instance.

#[global] Instance merge_StdSort : StdSort := {|
  std_sort comp l := merge_sort (not_before comp) l;
  std_sort_perm comp l := merge_sort_Permutation (not_before comp) l;
  std_sort_sorted := merge_sort_sorted
|}.

(** ** The monad computes by unfolding *)

Ltac run_monad :=
  cbv [bind ret gets modify throw try_catch when delete_nullptr] in *.

(** ** src/SmartFlagEnum.hpp: validation and the shape of the queries *)

Section flag_queries.

Import SmartFlagEnum.
Context `{StdSort}.

(** The [try] block of the validation loop cannot throw, so the handler with
    the power-of-two exception is dead code. *)
Lemma enforce_loop_ok (l : list Inst) (s : FlagStatics) :
  enforce_loop l s = Ok tt s.
Proof.
  induction l as [|i l IH]; simpl; [reflexivity|].
  destruct (negb (isPowerOfTwo (Value i))); [reflexivity | exact IH].
Qed.

Lemma set_validated_id (s : FlagStatics) :
  definitionsValidated s = true -> set_validated true s = s.
Proof. destruct s; simpl; intros ->; reflexivity. Qed.

Lemma enforceFlagDefinitions_ok (s : FlagStatics) :
  enforceFlagDefinitions s = Ok tt (set_validated true s).
Proof.
  unfold enforceFlagDefinitions. run_monad.
  destruct (definitionsValidated s) eqn:E.
  - by rewrite set_validated_id.
  - by rewrite enforce_loop_ok.
Qed.

Lemma List_ok (s : FlagStatics) :
  List s = Ok (instances s) (set_validated true s).
Proof.
  unfold List. run_monad. by rewrite enforceFlagDefinitions_ok.
Qed.

Lemma fitsInDefinedFlags_ok (input : Z) (s : FlagStatics) :
  fitsInDefinedFlags input s = Ok (fits input (instances s)) s.
Proof. reflexivity. Qed.

Lemma TryFromValue_ok (value : Z) (s : FlagStatics) :
  TryFromValue value s
  = Ok (TryFromValue_result value s) (set_validated true s).
Proof.
  unfold TryFromValue, TryFromValue_result.
  unfold bind at 1. rewrite enforceFlagDefinitions_ok.
  unfold bind at 1, gets at 1. cbn [valueMap set_validated].
  destruct (valueMap s !! value); [reflexivity|].
  destruct (value <? 0); [reflexivity|].
  unfold bind at 1. rewrite fitsInDefinedFlags_ok.
  change (instances (set_validated true s)) with (instances s).
  destruct (fits value (instances s)); [|reflexivity].
  unfold bind at 1. rewrite List_ok.
  change (instances (set_validated true s)) with (instances s).
  change (set_validated true (set_validated true s))
    with (set_validated true s).
  destruct (decompose_loop _ _ _); reflexivity.
Qed.

Lemma FromValue_ok (value : Z) (s : FlagStatics) :
  FromValue value s
  = if fst (TryFromValue_result value s)
    then Ok (snd (TryFromValue_result value s)) (set_validated true s)
    else Throw InvalidFlagEnumValueParseException (set_validated true s).
Proof.
  unfold FromValue, bind. rewrite TryFromValue_ok.
  destruct (fst (TryFromValue_result value s)); reflexivity.
Qed.

Lemma TryFromValueToString_ok (value : Z) (outStr : string) (s : FlagStatics) :
  TryFromValueToString value outStr s
  = Ok (if fst (TryFromValue_result value s)
        then (true, join_loop (snd (TryFromValue_result value s)) 0 "")
        else (false, outStr))
       (set_validated true s).
Proof.
  unfold TryFromValueToString, bind. rewrite TryFromValue_ok.
  destruct (fst (TryFromValue_result value s)); reflexivity.
Qed.

Lemma FromValueToString_ok (value : Z) (s : FlagStatics) :
  FromValueToString value s
  = if fst (TryFromValue_result value s)
    then Ok (join_loop (snd (TryFromValue_result value s)) 0 "")
           (set_validated true s)
    else Throw InvalidFlagEnumValueParseException (set_validated true s).
Proof.
  unfold FromValueToString, bind. rewrite TryFromValueToString_ok.
  destruct (fst (TryFromValue_result value s)); reflexivity.
Qed.

End flag_queries.

(** ** The registry after static initialisation *)

Lemma find_snoc {A} (f : A -> bool) (l : list A) (x : A) :
  find f (l ++ [x])
  = match find f l with
    | Some y => Some y
    | None => if f x then Some x else None
    end.
Proof.
  induction l as [|a l IH]; simpl; [reflexivity|].
  destruct (f a); [reflexivity | exact IH].
Qed.

Lemma count_false {K V} `{Countable K} (m : gmap K V) (k : K) :
  count m k = false <-> m !! k = None.
Proof. unfold count. destruct (m !! k); split; congruence. Qed.

Lemma count_true {K V} `{Countable K} (m : gmap K V) (k : K) :
  count m k = true <-> is_Some (m !! k).
Proof.
  unfold count. destruct (m !! k); split; try congruence; eauto.
  intros [? ?]; congruence.
Qed.

(** An index filled by "insert unless the key is taken" maps every key to
    the first element of the list that carries it. *)
Section first_registrant_index.

Context {K : Type} `{Countable K}.
Variable key : Inst -> K.
Variable eqb : K -> K -> bool.
Hypothesis eqb_spec : forall a b, eqb a b = true <-> a = b.

#[local] Abbreviation indexes := (indexes key eqb).

Lemma indexes_keep (m : gmap K Inst) (l : list Inst) (i : Inst) :
  indexes m l -> is_Some (m !! key i) -> indexes m (l ++ [i]).
Proof.
  intros Hm [x Hx] k. rewrite find_snoc, <- Hm.
  destruct (m !! k) eqn:E; [reflexivity|].
  destruct (eqb (key i) k) eqn:Eb; [|reflexivity].
  apply eqb_spec in Eb. congruence.
Qed.

Lemma indexes_insert (m : gmap K Inst) (l : list Inst) (i : Inst) :
  indexes m l -> m !! key i = None -> indexes (<[key i := i]> m) (l ++ [i]).
Proof.
  intros Hm Hnone k. rewrite find_snoc, <- Hm.
  destruct (decide (key i = k)) as [<-|Hne].
  - rewrite lookup_insert_eq, Hnone.
    by rewrite (proj2 (eqb_spec _ _) eq_refl).
  - rewrite lookup_insert_ne by done.
    destruct (m !! k); [reflexivity|].
    destruct (eqb (key i) k) eqn:Eb; [|reflexivity].
    apply eqb_spec in Eb. contradiction.
Qed.

Lemma indexes_update (m : gmap K Inst) (l : list Inst) (i : Inst) :
  indexes m l ->
  indexes (if negb (count m (key i)) then <[key i := i]> m else m) (l ++ [i]).
Proof.
  intros Hm. destruct (count m (key i)) eqn:E; cbn [negb].
  - apply indexes_keep; [done|]. by apply count_true.
  - apply indexes_insert; [done|]. by apply count_false.
Qed.

End first_registrant_index.

Section flag_registry.

Import SmartFlagEnum.

Lemma flag_registry_initial : flag_registry_ok initial.
Proof. split; intros k; apply lookup_empty. Qed.

Lemma flag_registerInstance_ok (i : Inst) (s s' : FlagStatics) :
  flag_registry_ok s ->
  registerInstance i s = Ok tt s' ->
  flag_registry_ok s'
  /\ instances s' = instances s ++ [i]
  /\ definitionsValidated s' = definitionsValidated s.
Proof.
  intros [Hv Hn Hl]. unfold registerInstance. run_monad.
  destruct (count (nameMap s) (Name i)) eqn:Edup; [discriminate|].
  cbn [instances nameMap nameMapIgnoreCase valueMap definitionsValidated].
  apply count_false in Edup.
  pose proof (indexes_insert Name String.eqb String.eqb_eq _ _ i Hn Edup)
    as Hn'.
  pose proof (indexes_update lower_name String.eqb String.eqb_eq _ _ i Hl)
    as Hl'.
  pose proof (indexes_update Value Z.eqb Z.eqb_eq _ _ i Hv) as Hv'.
  unfold lower_name at 1 2 3 in Hl'.
  destruct (count (nameMapIgnoreCase s) (transform_tolower (Name i)));
    cbn [negb instances nameMap nameMapIgnoreCase valueMap
         definitionsValidated] in *;
    (destruct (count (valueMap s) (Value i));
     cbn [negb instances nameMap nameMapIgnoreCase valueMap
          definitionsValidated] in *;
     intros [= <-]; (split; [|split; reflexivity]);
     split; cbn [instances nameMap nameMapIgnoreCase valueMap]; assumption).
Qed.

Lemma flag_registerInstance_throw (i : Inst) (s s' : FlagStatics) e :
  registerInstance i s = Throw e s' ->
  s' = s /\ e = runtime_error (Name i) /\ is_Some (nameMap s !! Name i).
Proof.
  unfold registerInstance. run_monad.
  destruct (count (nameMap s) (Name i)) eqn:Edup.
  - intros [= <- <-]. by apply count_true in Edup.
  - cbn [instances nameMap nameMapIgnoreCase valueMap definitionsValidated].
    destruct (count (nameMapIgnoreCase s) _);
      cbn [negb instances nameMap nameMapIgnoreCase valueMap
           definitionsValidated];
      destruct (count (valueMap s) _); discriminate.
Qed.

Lemma flag_construct_all_ok (defs : list (string * Z)) :
  forall s s',
    flag_registry_ok s ->
    construct_all SmartFlagEnum defs s = Ok tt s' ->
    flag_registry_ok s'
    /\ instances s' = instances s ++ map instance_of defs
    /\ definitionsValidated s' = definitionsValidated s.
Proof.
  induction defs as [|[name value] defs IH]; intros s s' Hok.
  - cbn [construct_all]. unfold ret. intros [= <-]. by rewrite app_nil_r.
  - cbn [construct_all]. unfold bind at 1.
    destruct (SmartFlagEnum name value s) as [[] s1|] eqn:E1; [|discriminate].
    intros Hrest. unfold SmartFlagEnum in E1.
    destruct (empty name); [discriminate|].
    destruct (flag_registerInstance_ok _ _ _ Hok E1) as (Hok1 & Hi1 & Hd1).
    destruct (IH _ _ Hok1 Hrest) as (Hok' & Hi' & Hd').
    split; [done|]. split; [|congruence].
    rewrite Hi', Hi1, <- app_assoc. reflexivity.
Qed.

Lemma flag_initialise_ok (T : FlagType) (s : FlagStatics) :
  flag_initialise T = Ok tt s ->
  flag_registry_ok s
  /\ instances s = map instance_of (definitions T)
  /\ definitionsValidated s = false.
Proof.
  intros Hinit.
  apply (flag_construct_all_ok _ _ _ flag_registry_initial Hinit).
Qed.

End flag_registry.

(** ** The bit operations of the code stay within [int]

    This is why the values are modelled by [Z] without wrap-around: on
    values of [int], [&], [|] and [~] are [Z.land], [Z.lor] and [Z.lnot]
    and their results are values of [int] again. *)

Section int_range.

Lemma nonneg_below_pow2_bits (n x : Z) :
  0 <= n -> 0 <= x ->
  (x < 2 ^ n <-> forall m, n <= m -> Z.testbit x m = false).
Proof.
  intros Hn Hx. split.
  - intros Hlt m Hm. destruct (Z.eq_dec x 0) as [->|Hne]; [apply Z.bits_0|].
    apply Z.bits_above_log2; [done|].
    assert (Z.log2 x < n) by (apply Z.log2_lt_pow2; lia). lia.
  - intros Hbits. destruct (Z.eq_dec x 0) as [->|Hne].
    { apply Z.pow_pos_nonneg; lia. }
    apply Z.log2_lt_pow2; [lia|].
    destruct (Z.lt_ge_cases (Z.log2 x) n) as [|Hge]; [done|exfalso].
    specialize (Hbits (Z.log2 x) Hge). rewrite Z.bit_log2 in Hbits by lia.
    discriminate.
Qed.

(** A number lies in [-2^n, 2^n) exactly when all its bits from position
    [n] on are equal: two's complement sign extension. *)
Lemma signed_range_bits (n x : Z) :
  0 <= n ->
  (- 2 ^ n <= x < 2 ^ n <->
   exists sign, forall m, n <= m -> Z.testbit x m = sign).
Proof.
  intros Hn. split.
  - intros [Hlo Hhi]. destruct (Z.lt_ge_cases x 0) as [Hneg|Hpos].
    + exists true. intros m Hm.
      assert (Hl : Z.testbit (Z.lnot x) m = false).
      { apply (nonneg_below_pow2_bits n); [done| | |done].
        - by apply Z.lnot_nonneg.
        - unfold Z.lnot. lia. }
      rewrite Z.lnot_spec in Hl by lia. by destruct (Z.testbit x m).
    + exists false. by apply nonneg_below_pow2_bits.
  - intros [[|] Hbits].
    + assert (Hneg : x < 0).
      { destruct (Z.lt_ge_cases x 0) as [|Hpos]; [done|exfalso].
        pose proof (Z.log2_nonneg x).
        assert (Hb : Z.testbit x (Z.max n (Z.succ (Z.log2 x))) = false).
        { destruct (Z.eq_dec x 0) as [->|]; [apply Z.bits_0|].
          apply Z.bits_above_log2; lia. }
        rewrite Hbits in Hb by lia. discriminate. }
      assert (Hl : Z.lnot x < 2 ^ n).
      { apply nonneg_below_pow2_bits; [done|by apply Z.lnot_nonneg|].
        intros m Hm. rewrite Z.lnot_spec, Hbits by lia. reflexivity. }
      unfold Z.lnot in Hl. lia.
    + assert (Hpos : 0 <= x).
      { destruct (Z.lt_ge_cases x 0) as [Hneg|]; [exfalso|done].
        apply Z.bits_iff_neg_ex in Hneg as [k Hk].
        specialize (Hk (Z.max n (Z.succ k)) ltac:(lia)).
        rewrite Hbits in Hk by lia. discriminate. }
      split; [|by apply nonneg_below_pow2_bits].
      pose proof (Z.pow_pos_nonneg 2 n ltac:(lia) Hn). lia.
Qed.

Lemma in_int_land (a b : Z) : in_int a -> in_int b -> in_int (Z.land a b).
Proof.
  unfold in_int. rewrite !signed_range_bits by lia.
  intros [sa Ha] [sb Hb]. exists (sa && sb). intros m Hm.
  by rewrite Z.land_spec, Ha, Hb.
Qed.

Lemma in_int_lor (a b : Z) : in_int a -> in_int b -> in_int (Z.lor a b).
Proof.
  unfold in_int. rewrite !signed_range_bits by lia.
  intros [sa Ha] [sb Hb]. exists (sa || sb). intros m Hm.
  by rewrite Z.lor_spec, Ha, Hb.
Qed.

Lemma in_int_lnot (a : Z) : in_int a -> in_int (Z.lnot a).
Proof. unfold in_int, Z.lnot. lia. Qed.

(** The subtraction of [isPowerOfTwo] is guarded by [v > 0]. *)
Lemma in_int_pred (v : Z) : in_int v -> 0 < v -> in_int (v - 1).
Proof. unfold in_int. lia. Qed.

End int_range.

(** ** Bit-level facts about [isPowerOfTwo] and the coverage test *)

Section bits.

Import SmartFlagEnum.

Lemma isPowerOfTwo_pow2 (v : Z) :
  isPowerOfTwo v = true -> v = 2 ^ Z.log2 v.
Proof.
  unfold isPowerOfTwo. intros Hp.
  apply andb_true_iff in Hp as [Hpos Hland].
  apply Z.ltb_lt in Hpos. apply Z.eqb_eq in Hland.
  destruct (Z.log2_spec v Hpos) as [Hlo Hhi].
  destruct (Z.eq_dec v (2 ^ Z.log2 v)) as [|Hne]; [assumption|exfalso].
  assert (Hlog : Z.log2 (v - 1) = Z.log2 v).
  { apply Z.log2_unique; [apply Z.log2_nonneg | lia]. }
  assert (Hbit : Z.testbit (Z.land v (v - 1)) (Z.log2 v) = true).
  { rewrite Z.land_spec, Z.bit_log2 by lia.
    rewrite <- Hlog, Z.bit_log2; [reflexivity|].
    pose proof (Z.pow_pos_nonneg 2 (Z.log2 v) ltac:(lia) (Z.log2_nonneg v)).
    lia. }
  rewrite Hland, Z.bits_0 in Hbit. discriminate.
Qed.

Lemma pow2_isPowerOfTwo (k : Z) : 0 <= k -> isPowerOfTwo (2 ^ k) = true.
Proof.
  intros Hk. unfold isPowerOfTwo.
  pose proof (Z.pow_pos_nonneg 2 k ltac:(lia) Hk) as Hpos.
  apply andb_true_iff. split; [by apply Z.ltb_lt|].
  apply Z.eqb_eq, Z.bits_inj'. intros n Hn.
  rewrite Z.land_spec, Z.bits_0, Z.pow2_bits_eqb by assumption.
  destruct (Z.eqb_spec k n) as [<-|Hne]; [|reflexivity].
  rewrite Z.sub_1_r, <- Z.ones_equiv, Z.ones_spec_high by lia.
  reflexivity.
Qed.

(** A power of two that has bit [n] is [2 ^ n]. *)
Lemma isPowerOfTwo_bit (v n : Z) :
  isPowerOfTwo v = true -> Z.testbit v n = true -> v = 2 ^ n.
Proof.
  intros Hp Hbit. rewrite (isPowerOfTwo_pow2 v Hp) in Hbit |- *.
  rewrite Z.pow2_bits_eqb in Hbit by apply Z.log2_nonneg.
  apply Z.eqb_eq in Hbit. by rewrite Hbit.
Qed.

Lemma union_of_bit (l : list Inst) (n : Z) :
  Z.testbit (union_of l) n = true <->
  exists f, f ∈ l /\ Z.testbit (Value f) n = true.
Proof.
  unfold union_of.
  assert (Hgen : forall acc,
    Z.testbit (fold_left (fun a i => Z.lor a (Value i)) l acc) n = true <->
    Z.testbit acc n = true \/ exists f, f ∈ l /\ Z.testbit (Value f) n = true).
  { induction l as [|g l IH]; intros acc; cbn [fold_left].
    - split; [by left|]. intros [?|(f & Hf & _)]; [done|]. by inversion Hf.
    - rewrite IH, Z.lor_spec, orb_true_iff. split.
      + intros [[?|?]|(f & Hf & Hb)]; [by left| |].
        * right. exists g. split; [by left | done].
        * right. exists f. split; [by right | done].
      + intros [?|(f & Hf & Hb)]; [by left; left|].
        inversion Hf; subst; [by left; right|].
        right. by exists f. }
  rewrite Hgen, Z.bits_0. split; [intros [?|?]; [discriminate|done] | by right].
Qed.

(** The coverage test, bit by bit. *)
Lemma fits_bits (input : Z) (l : list Inst) :
  fits input l = true ->
  forall n, 0 <= n -> Z.testbit input n = true ->
    exists f, f ∈ l /\ Z.testbit (Value f) n = true.
Proof.
  unfold fits. intros Hfit n Hn Hbit. apply Z.eqb_eq in Hfit.
  apply union_of_bit.
  assert (Hz : Z.testbit (Z.land input (Z.lnot (union_of l))) n = false)
    by (by rewrite Hfit, Z.bits_0).
  rewrite Z.land_spec, Z.lnot_spec, Hbit in Hz by assumption.
  by destruct (Z.testbit (union_of l) n).
Qed.

Lemma land_pow2_bit (r n : Z) :
  0 <= n -> Z.testbit r n = true -> Z.land r (2 ^ n) = 2 ^ n.
Proof.
  intros Hn Hbit. apply Z.bits_inj'. intros m Hm.
  rewrite Z.land_spec, Z.pow2_bits_eqb by assumption.
  destruct (Z.eqb_spec n m) as [<-|]; [by rewrite Hbit | apply andb_false_r].
Qed.

Lemma no_bits_zero (r : Z) :
  (forall n, 0 <= n -> Z.testbit r n = false) -> r = 0.
Proof.
  intros Hr. apply Z.bits_inj'. intros n Hn. by rewrite Hr, Z.bits_0.
Qed.

(** The greedy loop empties the remainder as soon as every bit of the
    remainder is the value of a flag still to be visited.  The order of the
    flags plays no part. *)
Lemma decompose_loop_single_bits (l : list Inst) :
  forall remainingValue outResult,
    (forall n, 0 <= n -> Z.testbit remainingValue n = true ->
       exists f, f ∈ l /\ Value f = 2 ^ n) ->
    fst (decompose_loop l remainingValue outResult) = 0.
Proof.
  induction l as [|g l IH]; intros r out Hcov; cbn [decompose_loop].
  - cbn [fst]. apply no_bits_zero. intros n Hn.
    destruct (Z.testbit r n) eqn:E; [|reflexivity].
    destruct (Hcov n Hn E) as (f & Hf & _). by inversion Hf.
  - destruct (Z.land r (Value g) =? Value g) eqn:Einc.
    + destruct (Z.land r (Z.lnot (Value g)) =? 0) eqn:Ez.
      * by apply Z.eqb_eq in Ez.
      * apply IH. intros n Hn Hbit.
        rewrite Z.land_spec, Z.lnot_spec in Hbit by assumption.
        apply andb_true_iff in Hbit as [Hr Hg].
        destruct (Hcov n Hn Hr) as (f & Hf & Hv).
        inversion Hf; subst; [|by exists f].
        rewrite Hv, Z.pow2_bits_true in Hg by assumption. discriminate.
    + destruct (r =? 0) eqn:Ez.
      * by apply Z.eqb_eq in Ez.
      * apply IH. intros n Hn Hbit.
        destruct (Hcov n Hn Hbit) as (f & Hf & Hv).
        inversion Hf; subst; [|by exists f].
        rewrite Hv, (land_pow2_bit r n Hn Hbit), Z.eqb_refl in Einc.
        discriminate.
Qed.

End bits.

(** ** Two facts about [StronglySorted] *)

Lemma StronglySorted_impl {A} (R R' : A -> A -> Prop) (l : list A) :
  (forall a b, R a b -> R' a b) -> StronglySorted R l -> StronglySorted R' l.
Proof.
  intros Himpl. induction 1 as [|a l Hl IH Ha]; constructor; [done|].
  eapply Forall_impl; [exact Ha | auto].
Qed.

Lemma StronglySorted_sublist {A} (R : A -> A -> Prop) (l' l : list A) :
  sublist l' l -> StronglySorted R l -> StronglySorted R l'.
Proof.
  induction 1 as [|x l1 l2 Hsub IH|x l1 l2 Hsub IH]; intros Hs.
  - constructor.
  - apply StronglySorted_inv in Hs as [Hs Hx]. constructor; [auto|].
    rewrite Forall_forall in Hx |- *. intros y Hy.
    apply Hx. by apply (elem_of_sublist l1 l2).
  - apply StronglySorted_inv in Hs as [Hs _]. auto.
Qed.

(** ** Sorting: the two comparators, and when the result is determined *)

Section sorting_facts.

Import SmartFlagEnum.
Context `{StdSort}.

Lemma value_greater_swo : strict_weak_order value_greater.
Proof.
  unfold value_greater. split.
  - intros a b Hab. apply Z.ltb_lt in Hab. apply Z.ltb_ge. lia.
  - intros a b c Hab Hbc. apply Z.ltb_ge in Hab, Hbc. apply Z.ltb_ge. lia.
Qed.

Lemma ltb_false_leb (a b : string) :
  String.ltb b a = false <-> String.leb a b = true.
Proof.
  unfold String.ltb, String.leb. rewrite (String.compare_antisym a b).
  destruct (String.compare b a); cbn; split; congruence.
Qed.

Lemma string_leb_trans (a b c : string) :
  String.leb a b = true -> String.leb b c = true -> String.leb a c = true.
Proof.
  unfold String.leb. intros Hab Hbc.
  destruct (String.compare a b) eqn:Eab; [| |discriminate].
  - apply String.compare_eq_iff in Eab. by subst.
  - destruct (String.compare b c) eqn:Ebc; [| |discriminate].
    + apply String.compare_eq_iff in Ebc. subst. by rewrite Eab.
    + apply OrderedTypeEx.String_as_OT.cmp_lt in Eab, Ebc.
      pose proof (OrderedTypeEx.String_as_OT.lt_trans _ _ _ Eab Ebc) as Hac.
      apply OrderedTypeEx.String_as_OT.cmp_lt in Hac. unfold OrderedTypeEx.String_as_OT.cmp in Hac.
      by rewrite Hac.
Qed.

Lemma name_less_swo : strict_weak_order name_less.
Proof.
  unfold name_less. split.
  - intros a b Hab. unfold String.ltb in *.
    rewrite (String.compare_antisym (Name b) (Name a)).
    destruct (String.compare (Name a) (Name b)); [discriminate|done|discriminate].
  - intros a b c Hab Hbc. apply ltb_false_leb in Hab, Hbc.
    apply ltb_false_leb. eauto using string_leb_trans.
Qed.

Lemma std_sort_descending (l : list Inst) :
  descending (std_sort value_greater l).
Proof.
  unfold descending.
  eapply StronglySorted_impl; [|apply std_sort_sorted, value_greater_swo].
  intros a b Hab. unfold not_before, value_greater in Hab.
  apply Z.ltb_ge in Hab. lia.
Qed.

Lemma std_sort_ascending_by_name (l : list Inst) :
  ascending_by_name (std_sort name_less l).
Proof.
  unfold ascending_by_name.
  eapply StronglySorted_impl; [|apply std_sort_sorted, name_less_swo].
  intros a b Hab. by apply ltb_false_leb.
Qed.

Lemma std_sort_elem_of (comp : Inst -> Inst -> bool) (l : list Inst) (x : Inst) :
  x ∈ std_sort comp l <-> x ∈ l.
Proof. by rewrite std_sort_perm. Qed.

Lemma NoDup_map_inj {A B} (f : A -> B) (l : list A) (a b : A) :
  NoDup (map f l) -> a ∈ l -> b ∈ l -> f a = f b -> a = b.
Proof.
  induction l as [|x l IH]; cbn [map]; intros Hnd Ha Hb Hf.
  - by inversion Ha.
  - apply NoDup_cons in Hnd as [Hx Hnd].
    inversion Ha; inversion Hb; subst; auto.
    + exfalso. apply Hx. rewrite Hf. by apply (list_elem_of_fmap_2 f).
    + exfalso. apply Hx. rewrite <- Hf. by apply (list_elem_of_fmap_2 f).
Qed.

(** When no two elements are equivalent for [comp], every [std::sort]
    returns the same vector. *)
Lemma std_sort_determined (comp : Inst -> Inst -> bool) (l : list Inst) :
  strict_weak_order comp ->
  (forall a b, a ∈ l -> b ∈ l -> comp a b = false -> comp b a = false -> a = b) ->
  std_sort comp l = merge_sort (not_before comp) l.
Proof.
  intros Hswo Hdistinct.
  apply (StronglySorted_unique_strong (not_before comp)).
  - intros a b Ha Hb Hab Hba. apply std_sort_elem_of in Ha.
    apply Hdistinct; [done| |done..].
    rewrite <- (merge_sort_Permutation (not_before comp) l). done.
  - by apply std_sort_sorted.
  - by apply merge_sort_sorted.
  - by rewrite std_sort_perm, merge_sort_Permutation.
Qed.

Lemma std_sort_by_value_determined (l : list Inst) :
  NoDup (map Value l) ->
  std_sort value_greater l = merge_sort (not_before value_greater) l.
Proof.
  intros Hnd. apply std_sort_determined; [apply value_greater_swo|].
  intros a b Ha Hb Hab Hba. apply (NoDup_map_inj Value l); [done..|].
  unfold value_greater in *. apply Z.ltb_ge in Hab, Hba. lia.
Qed.

Lemma value_less_swo : strict_weak_order SmartFlagEnumInClass.value_less.
Proof.
  unfold SmartFlagEnumInClass.value_less. split.
  - intros a b Hab. apply Z.ltb_lt in Hab. apply Z.ltb_ge. lia.
  - intros a b c Hab Hbc. apply Z.ltb_ge in Hab, Hbc. apply Z.ltb_ge. lia.
Qed.

Lemma std_sort_by_value_less_determined (l : list Inst) :
  NoDup (map Value l) ->
  std_sort SmartFlagEnumInClass.value_less l
  = merge_sort (not_before SmartFlagEnumInClass.value_less) l.
Proof.
  intros Hnd. apply std_sort_determined; [apply value_less_swo|].
  intros a b Ha Hb Hab Hba. apply (NoDup_map_inj Value l); [done..|].
  unfold SmartFlagEnumInClass.value_less in *.
  apply Z.ltb_ge in Hab, Hba. lia.
Qed.

Lemma std_sort_by_name_determined (l : list Inst) :
  NoDup (map Name l) ->
  std_sort name_less l = merge_sort (not_before name_less) l.
Proof.
  intros Hnd. apply std_sort_determined; [apply name_less_swo|].
  intros a b Ha Hb Hab Hba. apply (NoDup_map_inj Name l); [done..|].
  unfold name_less in *. apply ltb_false_leb in Hab, Hba.
  by apply String.leb_antisym.
Qed.

End sorting_facts.

(** ** The output of the decomposition *)

Section flag_decomposition.

Import SmartFlagEnum.
Context `{StdSort}.

Lemma decompose_loop_out (l : list Inst) :
  forall remainingValue outResult,
    exists out',
      snd (decompose_loop l remainingValue outResult) = outResult ++ out'
      /\ sublist out' l.
Proof.
  induction l as [|g l IH]; intros r out; cbn [decompose_loop].
  - exists []. split; [by rewrite app_nil_r | constructor].
  - destruct (Z.land r (Value g) =? Value g).
    + destruct (Z.land r (Z.lnot (Value g)) =? 0).
      * exists [g]. split; [done|]. apply sublist_skip, sublist_nil_l.
      * destruct (IH (Z.land r (Z.lnot (Value g))) (out ++ [g]))
          as (out' & -> & Hsub).
        exists (g :: out'). split; [by rewrite <- app_assoc|].
        by apply sublist_skip.
    + destruct (r =? 0).
      * exists []. split; [by rewrite app_nil_r | apply sublist_nil_l].
      * destruct (IH r out) as (out' & -> & Hsub).
        exists out'. split; [done|]. by apply sublist_cons.
Qed.

Lemma TryFromValue_result_descending (value : Z) (s : FlagStatics) :
  descending (snd (TryFromValue_result value s)).
Proof.
  unfold TryFromValue_result, descending.
  destruct (valueMap s !! value).
  { repeat constructor. }
  destruct (value <? 0); [constructor|].
  destruct (fits value (instances s)); [|constructor].
  cbn [snd].
  destruct (decompose_loop_out (std_sort value_greater (instances s)) value [])
    as (out' & -> & Hsub).
  cbn [app]. eapply StronglySorted_sublist; [exact Hsub|].
  apply std_sort_descending.
Qed.

Lemma append_nil_r (a : string) : (a ++ "")%string = a.
Proof.
  induction a as [|c a IH]; [reflexivity|].
  change (String c (a ++ "")%string = String c a). by rewrite IH.
Qed.

Lemma append_assoc (a b c : string) :
  ((a ++ b) ++ c)%string = (a ++ b ++ c)%string.
Proof.
  induction a as [|x a IH]; [reflexivity|].
  change (String x ((a ++ b) ++ c)%string = String x (a ++ b ++ c)%string).
  by rewrite IH.
Qed.

(** After the first element every name is preceded by the separator. *)
Lemma join_loop_tail (flags : list Inst) :
  forall i outStr,
    join_loop flags (S i) outStr
    = (outStr ++ String.concat "" (map (fun f => ", " ++ Name f) flags))%string.
Proof.
  induction flags as [|f flags IH]; intros i outStr; cbn [join_loop map].
  - cbn. by rewrite append_nil_r.
  - rewrite IH. change (0 <? S i)%nat with true. cbv iota.
    rewrite !append_assoc. f_equal. f_equal.
    destruct flags; cbn [map String.concat]; [by rewrite append_nil_r|].
    by rewrite append_assoc.
Qed.

Lemma concat_sep_cons (x : string) (flags : list Inst) :
  String.concat ", " (x :: map Name flags)
  = (x ++ String.concat "" (map (fun f => ", " ++ Name f) flags))%string.
Proof.
  revert x. induction flags as [|f flags IH]; intros x; cbn [map].
  - cbn. by rewrite append_nil_r.
  - change (String.concat ", " (x :: Name f :: map Name flags))
      with (x ++ ", " ++ String.concat ", " (Name f :: map Name flags))%string.
    rewrite IH. f_equal.
    destruct flags; cbn [map String.concat];
      [by rewrite !append_nil_r | by rewrite !append_assoc].
Qed.

(** The loop of [TryFromValueToString] is the ", "-join of the names. *)
Lemma join_loop_concat (flags : list Inst) :
  join_loop flags 0 "" = String.concat ", " (map Name flags).
Proof.
  destruct flags as [|f flags]; [reflexivity|].
  cbn [join_loop map]. change (0 <? 0)%nat with false. cbv iota.
  rewrite join_loop_tail. cbn [append]. by rewrite concat_sep_cons.
Qed.

(** With pairwise distinct values the result does not depend on which
    [std::sort] is linked in. *)
Lemma TryFromValue_result_determined (value : Z) (s : FlagStatics) :
  NoDup (map Value (instances s)) ->
  TryFromValue_result value s
  = TryFromValue_result (H := merge_StdSort) value s.
Proof.
  intros Hnd. unfold TryFromValue_result.
  by rewrite (std_sort_by_value_determined _ Hnd).
Qed.

End flag_decomposition.

(** ** Facts about the queries of src/SmartFlagEnum.hpp *)

Section flag_facts.

Import SmartFlagEnum.
Context `{StdSort}.

Lemma flag_lookup_value (s : FlagStatics) (v : Z) :
  flag_registry_ok s -> valueMap s !! v = first_with_value v (instances s).
Proof. intros [Hv _ _]. apply Hv. Qed.

Lemma first_with_value_Some (v : Z) (l : list Inst) (y : Inst) :
  first_with_value v l = Some y -> y ∈ l /\ Value y = v.
Proof.
  unfold first_with_value. intros Hfind.
  apply find_some in Hfind as [Hin Hv].
  split; [by apply list_elem_of_In | by apply Z.eqb_eq].
Qed.

Lemma first_with_value_None (v : Z) (l : list Inst) :
  first_with_value v l = None <-> Forall (fun x => Value x <> v) l.
Proof.
  unfold first_with_value. rewrite Forall_forall. split.
  - intros Hfind x Hx Hv. apply list_elem_of_In in Hx.
    pose proof (find_none _ _ Hfind x Hx) as Hf. cbv beta in Hf.
    apply Z.eqb_neq in Hf. contradiction.
  - intros Hall. destruct (find _ l) as [y|] eqn:E; [|reflexivity].
    apply find_some in E as [Hin Hv]. apply Z.eqb_eq in Hv.
    apply list_elem_of_In in Hin. by destruct (Hall y Hin).
Qed.

(** A negative value without exact match: [TryFromValue] returns [false]
    from inside the [try] block, and [FromValue] turns that into the parse
    exception.  No marker is consulted. *)
Lemma negative_unmatched (s : FlagStatics) (v : Z) :
  valueMap s !! v = None -> v < 0 ->
  TryFromValue v s = Ok (false, []) (set_validated true s)
  /\ FromValue v s
     = Throw InvalidFlagEnumValueParseException (set_validated true s).
Proof.
  intros Hnone Hneg. rewrite FromValue_ok, TryFromValue_ok.
  unfold TryFromValue_result. rewrite Hnone.
  by rewrite (proj2 (Z.ltb_lt v 0) Hneg).
Qed.

Lemma exact_match (s : FlagStatics) (v : Z) (y : Inst) :
  valueMap s !! v = Some y ->
  TryFromValue v s = Ok (true, [y]) (set_validated true s)
  /\ FromValue v s = Ok [y] (set_validated true s).
Proof.
  intros Hsome. rewrite FromValue_ok, TryFromValue_ok.
  unfold TryFromValue_result. by rewrite Hsome.
Qed.

Lemma fits_nonneg (v : Z) (l : list Inst) :
  Forall (fun f => 0 <= Value f) l -> fits v l = true -> 0 <= v.
Proof.
  intros Hall.
  assert (Hu : 0 <= union_of l).
  { unfold union_of.
    assert (Hgen : forall acc, 0 <= acc ->
              0 <= fold_left (fun a i => Z.lor a (Value i)) l acc).
    { induction Hall as [|g l Hg _ IH]; intros acc Hacc; cbn [fold_left];
        [done|]. apply IH. by apply Z.lor_nonneg. }
    by apply Hgen. }
  intros Hfit. unfold fits in Hfit. apply Z.eqb_eq in Hfit.
  destruct (Z.lt_ge_cases v 0) as [Hneg|]; [exfalso|done].
  assert (Z.land v (Z.lnot (union_of l)) < 0); [|lia].
  apply Z.land_neg. split; [done|]. by apply Z.lnot_neg.
Qed.

Lemma single_bit_flags_spec (l : list Inst) (f : Inst) :
  f ∈ single_bit_flags l <-> f ∈ l /\ isPowerOfTwo (Value f) = true.
Proof.
  unfold single_bit_flags. rewrite !list_elem_of_In. apply filter_In.
Qed.

Lemma fits_of_bits (v : Z) (l : list Inst) :
  0 <= v ->
  (forall n, 0 <= n -> Z.testbit v n = true ->
     exists f, f ∈ l /\ Z.testbit (Value f) n = true) ->
  fits v l = true.
Proof.
  intros Hv Hcov. unfold fits. apply Z.eqb_eq, Z.bits_inj'. intros n Hn.
  rewrite Z.land_spec, Z.lnot_spec, Z.bits_0 by assumption.
  destruct (Z.testbit v n) eqn:Ev; [|reflexivity].
  by rewrite (proj2 (union_of_bit l n) (Hcov n Hn Ev)).
Qed.

(** The remainder is emptied as soon as the single-bit flags alone cover the
    queried value. *)
Lemma covered_by_single_bit_flags (s : FlagStatics) (v : Z) :
  fits v (single_bit_flags (instances s)) = true ->
  fitsInDefinedFlags v s = Ok true s
  /\ fst (decompose_loop (std_sort value_greater (instances s)) v []) = 0
  /\ exists out, TryFromValue v s = Ok (true, out) (set_validated true s).
Proof.
  intros Hcov.
  assert (Hbits : forall n, 0 <= n -> Z.testbit v n = true ->
            exists f, f ∈ instances s /\ Value f = 2 ^ n).
  { intros n Hn Hbit.
    destruct (fits_bits _ _ Hcov n Hn Hbit) as (f & Hf & Hfb).
    apply single_bit_flags_spec in Hf as [Hf Hp].
    exists f. split; [done | by apply isPowerOfTwo_bit]. }
  assert (Hv : 0 <= v).
  { apply (fits_nonneg v (single_bit_flags (instances s))); [|done].
    apply Forall_forall. intros f Hf.
    apply single_bit_flags_spec in Hf as [_ Hp].
    unfold isPowerOfTwo in Hp. apply andb_true_iff in Hp as [Hp _].
    apply Z.ltb_lt in Hp. lia. }
  assert (Hfit : fits v (instances s) = true).
  { apply fits_of_bits; [done|]. intros n Hn Hbit.
    destruct (Hbits n Hn Hbit) as (f & Hf & Hval). exists f.
    split; [done|]. by rewrite Hval, Z.pow2_bits_true. }
  assert (Hrem :
    fst (decompose_loop (std_sort value_greater (instances s)) v []) = 0).
  { apply decompose_loop_single_bits. intros n Hn Hbit.
    destruct (Hbits n Hn Hbit) as (f & Hf & Hval).
    exists f. split; [by apply std_sort_elem_of | done]. }
  split; [by rewrite fitsInDefinedFlags_ok, Hfit|]. split; [exact Hrem|].
  rewrite TryFromValue_ok. unfold TryFromValue_result.
  destruct (valueMap s !! v); [by eexists|].
  rewrite (proj2 (Z.ltb_ge v 0) Hv), Hfit. cbn [fst snd].
  rewrite Hrem. by eexists.
Qed.

(** In particular: when every declared value is zero or a power of two, the
    coverage test of the code is enough. *)
Lemma single_bit_definitions_leave_no_remainder (s : FlagStatics) (v : Z) :
  Forall (fun f => Value f = 0 \/ isPowerOfTwo (Value f) = true)
    (instances s) ->
  fitsInDefinedFlags v s = Ok true s ->
  fst (decompose_loop (std_sort value_greater (instances s)) v []) = 0
  /\ exists out, TryFromValue v s = Ok (true, out) (set_validated true s).
Proof.
  intros Hall Hfit. rewrite fitsInDefinedFlags_ok in Hfit.
  injection Hfit as Hfit.
  apply covered_by_single_bit_flags.
  assert (Hv : 0 <= v).
  { apply (fits_nonneg v (instances s)); [|done].
    eapply Forall_impl; [exact Hall|]. intros f [->|Hp]; [done|].
    unfold isPowerOfTwo in Hp. apply andb_true_iff in Hp as [Hp _].
    apply Z.ltb_lt in Hp. lia. }
  apply fits_of_bits; [done|]. intros n Hn Hbit.
  destruct (fits_bits _ _ Hfit n Hn Hbit) as (f & Hf & Hfb).
  exists f. split; [|done]. apply single_bit_flags_spec. split; [done|].
  rewrite Forall_forall in Hall. destruct (Hall f Hf) as [Hz|Hp]; [|done].
  rewrite Hz, Z.bits_0 in Hfb. discriminate.
Qed.

(** In an initialised flag type the value -1 is looked up like any other:
    an instance of value -1 is returned alone; without one the call fails. *)
Lemma minus_one_exact_match_or_failure
  (T : FlagType) (s0 : FlagStatics) (b : bool) :
  flag_initialise T = Ok tt s0 ->
  (forall x, first_with_value (-1) (instances s0) = Some x ->
     FromValue (-1) (set_validated b s0) = Ok [x] (set_validated true s0))
  /\ (Forall (fun x => Value x <> -1) (instances s0) ->
      TryFromValue (-1) (set_validated b s0)
      = Ok (false, []) (set_validated true s0)
      /\ FromValue (-1) (set_validated b s0)
         = Throw InvalidFlagEnumValueParseException (set_validated true s0)).
Proof.
  intros Hinit.
  destruct (flag_initialise_ok _ _ Hinit) as (Hok & _ & _).
  split.
  - intros x Hx. apply (exact_match (set_validated b s0)).
    cbn [valueMap set_validated]. by rewrite (flag_lookup_value _ _ Hok).
  - intros Hnone. apply (negative_unmatched (set_validated b s0)); [|lia].
    cbn [valueMap set_validated]. rewrite (flag_lookup_value _ _ Hok).
    by apply first_with_value_None.
Qed.

End flag_facts.

(** ** The header with in-class member definitions, at the same inputs *)

Section inclass_facts.

Context `{StdSort}.

Lemma inclass_enforce_determined (T : FlagType) (s : FlagStatics) :
  NoDup (map Value (instances s)) ->
  SmartFlagEnumInClass.enforceFlagDefinitions T s
  = SmartFlagEnumInClass.enforceFlagDefinitions (H := merge_StdSort) T s.
Proof.
  intros Hnd. unfold SmartFlagEnumInClass.enforceFlagDefinitions.
  run_monad. destruct (definitionsValidated s); [reflexivity|]. cbv beta.
  by rewrite (std_sort_by_value_less_determined _ Hnd).
Qed.

Lemma inclass_List_determined (T : FlagType) (s : FlagStatics) :
  NoDup (map Value (instances s)) ->
  SmartFlagEnumInClass.List T s
  = SmartFlagEnumInClass.List (H := merge_StdSort) T s.
Proof.
  intros Hnd. unfold SmartFlagEnumInClass.List, bind.
  by rewrite (inclass_enforce_determined _ _ Hnd).
Qed.

Lemma inclass_FromValue_determined (T : FlagType) (v : Z) (s : FlagStatics) :
  NoDup (map Value (instances s)) ->
  SmartFlagEnumInClass.FromValue T v s
  = SmartFlagEnumInClass.FromValue (H := merge_StdSort) T v s.
Proof.
  intros Hnd.
  unfold SmartFlagEnumInClass.FromValue, SmartFlagEnumInClass.TryFromValue.
  unfold bind at 1 2. by rewrite (inclass_enforce_determined _ _ Hnd).
Qed.

(** {A=1, B=3} without marker: this header throws at the first query. *)
Lemma inclass_rejects_not_power_of_two :
  thrown (SmartFlagEnumInClass.List NotPow2 (inclass_statics NotPow2))
  = Some (SmartFlagEnumNotPowerOfTwoException (value_not_power_of_two 3)).
Proof.
  rewrite inclass_List_determined by compute_done. vm_compute. reflexivity.
Qed.

(** {A=1, C=4} without marker: this header reports the missing flag 2. *)
Lemma inclass_rejects_gap :
  thrown (SmartFlagEnumInClass.List Gap (inclass_statics Gap))
  = Some (SmartFlagEnumNotPowerOfTwoException (missing_power_of_two 2)).
Proof.
  rewrite inclass_List_determined by compute_done. vm_compute. reflexivity.
Qed.

(** {None=0, A=1, B=2} with [AllowNegativeFlagEnumInput]: in this header -1
    stands for all the non-zero instances. *)
Lemma inclass_minus_one_is_all :
  returned (SmartFlagEnumInClass.FromValue NegNoAll (-1)
              (inclass_statics NegNoAll))
  = Some [mkInst "A" 1; mkInst "B" 2].
Proof.
  rewrite inclass_FromValue_determined by compute_done.
  vm_compute. reflexivity.
Qed.

(** Strict flags {A=1, B=2, C=4}: this header visits the flags in ascending
    order and finds nothing for the value 0. *)
Lemma inclass_ascending_and_zero :
  returned (SmartFlagEnumInClass.FromValue StrictABC 3
              (inclass_statics StrictABC))
  = Some [mkInst "A" 1; mkInst "B" 2]
  /\ thrown (SmartFlagEnumInClass.FromValue StrictABC 0
               (inclass_statics StrictABC))
     = Some SmartEnumNotFoundException.
Proof.
  rewrite !inclass_FromValue_determined by compute_done.
  split; vm_compute; reflexivity.
Qed.

End inclass_facts.

(** ** Claims about src/SmartFlagEnum.hpp *)

Section flag_claims.

Import SmartFlagEnum.
Context `{StdSort}.

(** C1.  The type {A=1, B=3} declares no [AllowUnsafeFlagEnumValues] and 3 is
    neither a power of two nor a sentinel.  Its construction succeeds, and
    the first flag query [List()] returns both instances: the handler that
    throws the not-power-of-two exception is never entered.  The header with
    in-class member definitions throws that exception at the same query. *)
Theorem C1_not_power_of_two_is_accepted :
  AllowUnsafeFlagEnumValues NotPow2 = false
  /\ isPowerOfTwo 3 = false
  /\ flag_initialise NotPow2 = Ok tt (statics NotPow2)
  /\ definitionsValidated (statics NotPow2) = false
  /\ List (statics NotPow2)
     = Ok [mkInst "A" 1; mkInst "B" 3] (set_validated true (statics NotPow2))
  /\ thrown (SmartFlagEnumInClass.List NotPow2 (inclass_statics NotPow2))
     = Some (SmartFlagEnumNotPowerOfTwoException (value_not_power_of_two 3)).
Proof.
  repeat apply conj; [reflexivity | reflexivity | | | |].
  - vm_compute. reflexivity.
  - vm_compute. reflexivity.
  - vm_compute. reflexivity.
  - apply inclass_rejects_not_power_of_two.
Qed.

(** C2.  The type {None=0, A=1, B=2} declares [AllowNegativeFlagEnumInput]
    and has no instance of value -1.  [TryFromValue(-1)] reports failure and
    [FromValue(-1)] raises the parse exception, where the header with
    in-class member definitions returns the non-zero instances A and B.
    With an explicit instance of value -1, as in the [Flags] of the tests,
    [FromValue(-1)] returns that instance alone. *)
Theorem C2_minus_one_without_explicit_instance_fails :
  AllowNegativeFlagEnumInput NegNoAll = true
  /\ first_with_value (-1) (instances (statics NegNoAll)) = None
  /\ TryFromValue (-1) (statics NegNoAll)
     = Ok (false, []) (set_validated true (statics NegNoAll))
  /\ FromValue (-1) (statics NegNoAll)
     = Throw InvalidFlagEnumValueParseException
         (set_validated true (statics NegNoAll))
  /\ returned (SmartFlagEnumInClass.FromValue NegNoAll (-1)
                 (inclass_statics NegNoAll))
     = Some [mkInst "A" 1; mkInst "B" 2]
  /\ FromValue (-1) (statics Flags)
     = Ok [mkInst "All" (-1)] (set_validated true (statics Flags)).
Proof.
  assert (Hnone : valueMap (statics NegNoAll) !! (-1) = None)
    by (vm_compute; reflexivity).
  assert (Hall : valueMap (statics Flags) !! (-1) = Some (mkInst "All" (-1)))
    by (vm_compute; reflexivity).
  destruct (negative_unmatched _ _ Hnone ltac:(lia)) as [Htry Hfrom].
  destruct (exact_match _ _ _ Hall) as [_ Hexact].
  repeat apply conj.
  - reflexivity.
  - vm_compute. reflexivity.
  - exact Htry.
  - exact Hfrom.
  - apply inclass_minus_one_is_all.
  - exact Hexact.
Qed.

(** C3.  In an initialised flag type, a queried value that is the value of a
    registered instance [x] makes [FromValue] return exactly one instance:
    the first registered instance with that value (so an explicitly declared
    combination is returned as such, never decomposed).  It is [x] itself
    when [x] is the only instance with that value. *)
Theorem C3_exact_match_returns_single_instance
  (T : FlagType) (s0 : FlagStatics) (b : bool) (x : Inst) :
  flag_initialise T = Ok tt s0 ->
  x ∈ instances s0 ->
  exists y,
    FromValue (Value x) (set_validated b s0) = Ok [y] (set_validated true s0)
    /\ first_with_value (Value x) (instances s0) = Some y
    /\ y ∈ instances s0
    /\ Value y = Value x
    /\ (Forall (fun z => Value z = Value x -> z = x) (instances s0) -> y = x).
Proof.
  intros Hinit Hx.
  destruct (flag_initialise_ok _ _ Hinit) as (Hok & _ & _).
  destruct (first_with_value (Value x) (instances s0)) as [y|] eqn:Efirst.
  - destruct (first_with_value_Some _ _ _ Efirst) as [Hy Hv].
    exists y. split; [|split; [done|split; [done|split; [done|]]]].
    + apply (exact_match (set_validated b s0)).
      cbn [valueMap set_validated]. by rewrite (flag_lookup_value _ _ Hok).
    + intros Hall. rewrite Forall_forall in Hall. by apply Hall.
  - apply first_with_value_None in Efirst. rewrite Forall_forall in Efirst.
    by destruct (Efirst x Hx).
Qed.

(** C4.  Whenever [FromValue] succeeds, its result is ordered descending by
    value, and [FromValueToString] is the ", "-join of the names in that
    order.  For strict flags {A=1, B=2, C=4}: [FromValue(3)] is [B, A] and
    [FromValueToString(3)] is "B, A". *)
Theorem C4_descending_order_and_joined_names :
  (forall (s s' : FlagStatics) (v : Z) (out : list Inst),
      FromValue v s = Ok out s' ->
      descending out
      /\ FromValueToString v s = Ok (String.concat ", " (map Name out)) s')
  /\ FromValue 3 (statics StrictABC)
     = Ok [mkInst "B" 2; mkInst "A" 1] (set_validated true (statics StrictABC))
  /\ FromValueToString 3 (statics StrictABC)
     = Ok "B, A" (set_validated true (statics StrictABC)).
Proof.
  split.
  - intros s s' v out. rewrite FromValue_ok, FromValueToString_ok.
    destruct (fst (TryFromValue_result v s)); [|discriminate].
    intros [= <- <-]. split; [apply TryFromValue_result_descending|].
    by rewrite join_loop_concat.
  - rewrite FromValue_ok, FromValueToString_ok.
    rewrite TryFromValue_result_determined by compute_done.
    split; vm_compute; reflexivity.
Qed.

(** C5.  The type {A=1, C=4} declares no [AllowUnsafeFlagEnumValues] and
    lacks the flag 2.  The first flag query [List()] returns both instances
    and [FromValue(5)] returns [C, A]: the validation looks at nothing but
    [isPowerOfTwo].  The header with in-class member definitions reports the
    missing flag 2 at the same query. *)
Theorem C5_gap_is_accepted :
  AllowUnsafeFlagEnumValues Gap = false
  /\ definitionsValidated (statics Gap) = false
  /\ List (statics Gap)
     = Ok [mkInst "A" 1; mkInst "C" 4] (set_validated true (statics Gap))
  /\ FromValue 5 (statics Gap)
     = Ok [mkInst "C" 4; mkInst "A" 1] (set_validated true (statics Gap))
  /\ thrown (SmartFlagEnumInClass.List Gap (inclass_statics Gap))
     = Some (SmartFlagEnumNotPowerOfTwoException (missing_power_of_two 2)).
Proof.
  repeat apply conj.
  - reflexivity.
  - vm_compute. reflexivity.
  - vm_compute. reflexivity.
  - rewrite FromValue_ok.
    rewrite TryFromValue_result_determined by compute_done.
    vm_compute. reflexivity.
  - apply inclass_rejects_gap.
Qed.

(** C6.  Whenever every set bit of the queried value lies in the union of
    the declared power-of-two values, the coverage test passes, the greedy
    loop ends with the remainder zero and [TryFromValue] succeeds. *)
Theorem C6_single_bit_coverage_leaves_no_remainder (s : FlagStatics) (v : Z) :
  fits v (single_bit_flags (instances s)) = true ->
  fitsInDefinedFlags v s = Ok true s
  /\ fst (decompose_loop (std_sort value_greater (instances s)) v []) = 0
  /\ exists out, TryFromValue v s = Ok (true, out) (set_validated true s).
Proof. apply covered_by_single_bit_flags. Qed.

(** C7.  [NoNegFlags] = {X=1, Y=2} does not declare
    [AllowNegativeFlagEnumInput] and -5 matches no instance.
    [TryFromValue(-5)] reports failure, but [FromValue(-5)] raises the parse
    exception, not the negative-value exception: the handler that throws the
    latter is never entered. *)
Theorem C7_negative_input_raises_parse_exception :
  AllowNegativeFlagEnumInput NoNegFlags = false
  /\ valueMap (statics NoNegFlags) !! (-5) = None
  /\ TryFromValue (-5) (statics NoNegFlags)
     = Ok (false, []) (set_validated true (statics NoNegFlags))
  /\ FromValue (-5) (statics NoNegFlags)
     = Throw InvalidFlagEnumValueParseException
         (set_validated true (statics NoNegFlags)).
Proof.
  assert (Hnone : valueMap (statics NoNegFlags) !! (-5) = None)
    by (vm_compute; reflexivity).
  destruct (negative_unmatched _ _ Hnone ltac:(lia)) as [Htry Hfrom].
  repeat apply conj.
  - reflexivity.
  - exact Hnone.
  - exact Htry.
  - exact Hfrom.
Qed.

(** C10.  In an initialised flag type without a zero-valued instance,
    [TryFromValue(0)] succeeds with the empty list and
    [TryFromValueToString(0)] succeeds with the empty string. *)
Theorem C10_zero_without_zero_instance_is_empty
  (T : FlagType) (s0 : FlagStatics) (b : bool) (outStr : string) :
  flag_initialise T = Ok tt s0 ->
  Forall (fun x => Value x <> 0) (instances s0) ->
  TryFromValue 0 (set_validated b s0) = Ok (true, []) (set_validated true s0)
  /\ TryFromValueToString 0 outStr (set_validated b s0)
     = Ok (true, "") (set_validated true s0).
Proof.
  intros Hinit Hnz.
  destruct (flag_initialise_ok _ _ Hinit) as (Hok & _ & _).
  assert (Hres : TryFromValue_result 0 (set_validated b s0) = (true, [])).
  { unfold TryFromValue_result. cbn [valueMap instances set_validated].
    rewrite (flag_lookup_value _ _ Hok).
    rewrite (proj2 (first_with_value_None 0 (instances s0)) Hnz).
    change (0 <? 0) with false. cbv iota.
    unfold fits. rewrite Z.land_0_l. change (0 =? 0) with true. cbv iota.
    destruct (std_sort value_greater (instances s0)) as [|g rest] eqn:Es;
      [reflexivity|].
    cbn [decompose_loop]. rewrite Z.land_0_l.
    assert (Hg : Value g <> 0).
    { rewrite Forall_forall in Hnz. apply Hnz.
      apply (std_sort_elem_of value_greater). rewrite Es. by left. }
    rewrite (proj2 (Z.eqb_neq 0 (Value g))) by lia. reflexivity. }
  rewrite TryFromValueToString_ok, TryFromValue_ok, Hres. by split.
Qed.

End flag_claims.

(** ** Counterexample and instances of the flag claims *)

Section flag_examples.

Import SmartFlagEnum.

Lemma C3_witness_explicit_combination :
  exists y,
    FromValue 3 (set_validated false (statics Flags))
    = Ok [y] (set_validated true (statics Flags))
    /\ first_with_value 3 (instances (statics Flags)) = Some y
    /\ y ∈ instances (statics Flags)
    /\ Value y = 3
    /\ (Forall (fun z => Value z = 3 -> z = mkInst "AB" 3)
          (instances (statics Flags)) -> y = mkInst "AB" 3).
Proof.
  refine (C3_exact_match_returns_single_instance
            Flags (statics Flags) false (mkInst "AB" 3) _ _).
  - vm_compute; reflexivity.
  - compute_done.
Defined.

Lemma C4_witness_strict_flags :
  descending [mkInst "C" 4; mkInst "A" 1]
  /\ FromValueToString 5 (statics StrictABC)
     = Ok "C, A" (set_validated true (statics StrictABC)).
Proof.
  refine (proj1 C4_descending_order_and_joined_names
            (statics StrictABC) _ 5 [mkInst "C" 4; mkInst "A" 1] _).
  vm_compute; reflexivity.
Defined.

(** C6, at {A=1, All=-1} and the value 2: the union of the declared values
    is all ones, so the coverage test passes; no flag is contained in 2, the
    loop ends with the remainder 2 and [TryFromValue] reports failure. *)
Lemma C6_counterexample_remainder_left :
  fitsInDefinedFlags 2 (statics OneAndAll) = Ok true (statics OneAndAll)
  /\ decompose_loop
       (std_sort value_greater (instances (statics OneAndAll))) 2 []
     = (2, [])
  /\ TryFromValue 2 (statics OneAndAll)
     = Ok (false, []) (set_validated true (statics OneAndAll)).
Proof. repeat apply conj; vm_compute; reflexivity. Qed.

Lemma C6_witness_test_flags :
  fitsInDefinedFlags 5 (statics Flags) = Ok true (statics Flags)
  /\ fst (decompose_loop
            (std_sort value_greater (instances (statics Flags))) 5 []) = 0
  /\ exists out,
       TryFromValue 5 (statics Flags)
       = Ok (true, out) (set_validated true (statics Flags)).
Proof.
  refine (C6_single_bit_coverage_leaves_no_remainder (statics Flags) 5 _).
  vm_compute; reflexivity.
Defined.

Lemma C10_witness_strict_flags :
  TryFromValue 0 (set_validated false (statics StrictABC))
  = Ok (true, []) (set_validated true (statics StrictABC))
  /\ TryFromValueToString 0 "unchanged" (set_validated false (statics StrictABC))
     = Ok (true, "") (set_validated true (statics StrictABC)).
Proof.
  refine (C10_zero_without_zero_instance_is_empty
            StrictABC (statics StrictABC) false "unchanged" _ _).
  - vm_compute; reflexivity.
  - compute_done.
Defined.

End flag_examples.

(** ** The registry of a [SmartEnum] type *)

Section enum_registry.

Context `{StdSort}.

Ltac enum_simpl :=
  cbn [push_instance set_nameMap set_nameMapIgnoreCase set_valueMap
       enum_instances enum_nameMap enum_nameMapIgnoreCase enum_valueMap
       enum_listInitFlag negb].

Lemma include_registerInstance_ok (i : Inst) (s s' : EnumStatics) :
  SmartEnumInclude.registerInstance i s = Ok tt s' -> registered i s s'.
Proof.
  unfold SmartEnumInclude.registerInstance, registered, lower_name. run_monad.
  enum_simpl.
  destruct (count (enum_nameMap s) (Name i)) eqn:Edup; [discriminate|].
  apply count_false in Edup. enum_simpl.
  destruct (count (enum_nameMapIgnoreCase s) (transform_tolower (Name i)));
    enum_simpl;
    destruct (count (enum_valueMap s) (Value i));
    enum_simpl; intros [= <-]; by repeat split.
Qed.


Lemma enum_registerInstance_ok (i : Inst) (s s' : EnumStatics) :
  SmartEnum.registerInstance i s = Ok tt s' -> registered i s s'.
Proof.
  unfold SmartEnum.registerInstance, registered, lower_name. run_monad.
  destruct (count (enum_nameMap s) (Name i)) eqn:Edup; [discriminate|].
  apply count_false in Edup. enum_simpl.
  destruct (count (enum_nameMapIgnoreCase s) (transform_tolower (Name i)));
    enum_simpl;
    destruct (count (enum_valueMap s) (Value i));
    enum_simpl; intros [= <-]; by repeat split.
Qed.

Lemma enum_registerInstance_throw (i : Inst) (s s' : EnumStatics) e :
  SmartEnum.registerInstance i s = Throw e s' ->
  e = runtime_error (Name i) /\ s' = s.
Proof.
  unfold SmartEnum.registerInstance. run_monad.
  destruct (count (enum_nameMap s) (Name i)); [by intros [= <- <-]|].
  enum_simpl.
  destruct (count (enum_nameMapIgnoreCase s) (transform_tolower (Name i)));
    enum_simpl;
    destruct (count (enum_valueMap s) (Value i)); discriminate.
Qed.

Lemma enum_registry_initial : enum_registry_ok [] enum_initial.
Proof.
  split; try (intros k; apply lookup_empty); cbn; by constructor.
Qed.

Lemma first_with_name_None (n : string) (l : list Inst) :
  first_with_name n l = None -> n ∉ map Name l.
Proof.
  unfold first_with_name. intros Hfind Hin.
  apply list_elem_of_fmap in Hin as (x & -> & Hx).
  apply list_elem_of_In in Hx.
  pose proof (find_none _ _ Hfind x Hx) as Hf. cbv beta in Hf.
  by rewrite String.eqb_refl in Hf.
Qed.

Lemma registered_preserves (l : list Inst) (i : Inst) (s s' : EnumStatics) :
  enum_registry_ok l s -> registered i s s' -> empty (Name i) = false ->
  enum_registry_ok (l ++ [i]) s'.
Proof.
  intros [Hv Hn Hl Hi Hnd Hne] (Hfree & Ei & En & El & Ev & _) Hnonempty.
  split.
  - rewrite Ev. by apply indexes_update; [apply Z.eqb_eq|].
  - rewrite En. by apply indexes_insert; [apply String.eqb_eq| |].
  - rewrite El. by apply indexes_update; [apply String.eqb_eq|].
  - rewrite Ei. by apply Permutation_app_tail.
  - rewrite map_app. cbn [map]. apply NoDup_app. split; [done|].
    split; [|apply NoDup_singleton].
    intros n Hin Hn'. apply list_elem_of_singleton in Hn'. subst n.
    revert Hin. apply first_with_name_None.
    unfold first_with_name. by rewrite <- (Hn (Name i)).
  - apply Forall_app. split; [done|]. by constructor.
Qed.

Lemma include_construct_ok l name value (s s' : EnumStatics) :
  enum_registry_ok l s ->
  SmartEnumInclude.SmartEnum name value s = Ok tt s' ->
  enum_registry_ok (l ++ [mkInst name value]) s'.
Proof.
  intros Hok. unfold SmartEnumInclude.SmartEnum.
  destruct (empty name) eqn:Ee; [discriminate|]. intros Hreg.
  apply include_registerInstance_ok in Hreg.
  by apply (registered_preserves _ _ s).
Qed.

Lemma enum_construct_ok l name value (s s' : EnumStatics) :
  enum_registry_ok l s ->
  SmartEnum.SmartEnum name value s = Ok tt s' ->
  enum_registry_ok (l ++ [mkInst name value]) s'
  /\ enum_instances s' = enum_instances s ++ [mkInst name value].
Proof.
  intros Hok. unfold SmartEnum.SmartEnum.
  destruct (empty name) eqn:Ee; [discriminate|]. intros Hreg.
  apply enum_registerInstance_ok in Hreg.
  split; [by apply (registered_preserves _ _ s)|]. apply Hreg.
Qed.

(** What [List()] of include/SmartEnum.hpp does to the statics. *)
Lemma include_List_ok (s : EnumStatics) :
  SmartEnumInclude.List s
  = if enum_listInitFlag s then Ok (enum_instances s) s
    else Ok (std_sort name_less (enum_instances s))
           (mkEnumStatics (std_sort name_less (enum_instances s))
              (enum_nameMap s) (enum_nameMapIgnoreCase s) (enum_valueMap s)
              true).
Proof.
  unfold SmartEnumInclude.List. run_monad.
  destruct (enum_listInitFlag s); reflexivity.
Qed.

Lemma include_history_ok (l : list Inst) (s : EnumStatics) :
  include_history l s -> enum_registry_ok l s.
Proof.
  induction 1 as [|l s name value s' _ IH Hc|l s r s' _ IH HL].
  - apply enum_registry_initial.
  - by apply (include_construct_ok _ _ _ s).
  - rewrite include_List_ok in HL. destruct IH as [Hv Hn Hl Hi Hnd Hne].
    destruct (enum_listInitFlag s); injection HL as <- <-; [by split|].
    split; cbn [enum_valueMap enum_nameMap enum_nameMapIgnoreCase
                enum_instances]; try done.
    by rewrite std_sort_perm.
Qed.

Lemma enum_history_ok (l : list Inst) (s : EnumStatics) :
  enum_history l s -> enum_registry_ok l s /\ enum_instances s = l.
Proof.
  induction 1 as [|l s name value s' _ [IH IHi] Hc].
  - split; [apply enum_registry_initial | reflexivity].
  - destruct (enum_construct_ok _ _ _ _ _ IH Hc) as [Hok Hi].
    split; [done|]. by rewrite Hi, IHi.
Qed.

Lemma include_construct_all_history (defs : list (string * Z)) :
  forall l s s',
    include_history l s ->
    construct_all SmartEnumInclude.SmartEnum defs s = Ok tt s' ->
    include_history (l ++ map instance_of defs) s'
    /\ enum_listInitFlag s' = enum_listInitFlag s
    /\ enum_instances s' = enum_instances s ++ map instance_of defs.
Proof.
  induction defs as [|[name value] defs IH]; intros l s s' Hh;
    cbn [construct_all map].
  - unfold ret. intros [= <-]. by rewrite !app_nil_r.
  - unfold bind at 1.
    destruct (SmartEnumInclude.SmartEnum name value s) as [[] s1|] eqn:E1;
      [|discriminate].
    intros Hrest.
    pose proof (include_history_construct _ _ _ _ _ Hh E1) as Hh1.
    destruct (IH _ _ _ Hh1 Hrest) as (Hh' & Hf' & Hi').
    unfold SmartEnumInclude.SmartEnum in E1.
    destruct (empty name); [discriminate|].
    apply include_registerInstance_ok in E1 as (_ & Ei & _ & _ & _ & Ef).
    change (instance_of (name, value)) with (mkInst name value).
    rewrite <- app_assoc in Hh'. split; [exact Hh'|].
    split; [congruence|]. by rewrite Hi', Ei, <- app_assoc.
Qed.

Lemma enum_construct_all_history (defs : list (string * Z)) :
  forall l s s',
    enum_history l s ->
    construct_all SmartEnum.SmartEnum defs s = Ok tt s' ->
    enum_history (l ++ map instance_of defs) s'.
Proof.
  induction defs as [|[name value] defs IH]; intros l s s' Hh;
    cbn [construct_all map].
  - unfold ret. intros [= <-]. by rewrite !app_nil_r.
  - unfold bind at 1.
    destruct (SmartEnum.SmartEnum name value s) as [[] s1|] eqn:E1;
      [|discriminate].
    intros Hrest.
    pose proof (enum_history_construct _ _ _ _ _ Hh E1) as Hh1.
    pose proof (IH _ _ _ Hh1 Hrest) as Hh'.
    change (instance_of (name, value)) with (mkInst name value).
    by rewrite <- app_assoc in Hh'.
Qed.

End enum_registry.

(** ** Claims about the two SmartEnum headers *)

Section enum_claims.

Context `{StdSort}.

Lemma first_with_name_self (l : list Inst) (x : Inst) :
  NoDup (map Name l) -> x ∈ l -> first_with_name (Name x) l = Some x.
Proof.
  intros Hnd Hx. unfold first_with_name.
  destruct (find _ l) as [y|] eqn:E.
  - apply find_some in E as [Hy Hn]. apply String.eqb_eq in Hn.
    apply list_elem_of_In in Hy. f_equal.
    by apply (NoDup_map_inj Name l).
  - apply list_elem_of_In in Hx.
    pose proof (find_none _ _ E x Hx) as Hf. cbv beta in Hf.
    by rewrite String.eqb_refl in Hf.
Qed.

Lemma first_with_value_of_member (l : list Inst) (x : Inst) :
  x ∈ l ->
  exists y, first_with_value (Value x) l = Some y /\ Value y = Value x
            /\ (Forall (fun z => Value z = Value x -> z = x) l -> y = x).
Proof.
  intros Hx. destruct (first_with_value (Value x) l) as [y|] eqn:E.
  - destruct (first_with_value_Some _ _ _ E) as [Hy Hv].
    exists y. split; [done|]. split; [done|].
    intros Hall. rewrite Forall_forall in Hall. by apply Hall.
  - apply first_with_value_None in E. rewrite Forall_forall in E.
    by destruct (E x Hx).
Qed.

Lemma include_round_trip (l : list Inst) (s : EnumStatics) (x : Inst) :
  enum_registry_ok l s -> x ∈ l ->
  SmartEnumInclude.FromName (Name x) false s = Ok x s
  /\ exists y, SmartEnumInclude.FromValue (Value x) s = Ok y s
       /\ first_with_value (Value x) l = Some y
       /\ Value y = Value x
       /\ (Forall (fun z => Value z = Value x -> z = x) l -> y = x).
Proof.
  intros [Hv Hn _ _ Hnd Hne] Hx. split.
  - unfold SmartEnumInclude.FromName, SmartEnumInclude.TryFromNameInternal.
    rewrite Forall_forall in Hne. rewrite (Hne x Hx). run_monad.
    cbn [negb]. rewrite (Hn (Name x)).
    fold (first_with_name (Name x) l). by rewrite first_with_name_self.
  - destruct (first_with_value_of_member l x Hx) as (y & Hy & Hrest).
    exists y. split; [|by split].
    unfold SmartEnumInclude.FromValue, SmartEnumInclude.TryFromValueInternal.
    run_monad. rewrite (Hv (Value x)).
    fold (first_with_value (Value x) l). by rewrite Hy.
Qed.

Lemma enum_round_trip (l : list Inst) (s : EnumStatics) (x : Inst) :
  enum_registry_ok l s -> x ∈ l ->
  SmartEnum.FromName (Name x) false s = Ok x s
  /\ exists y, SmartEnum.FromValue (Value x) s = Ok y s
       /\ first_with_value (Value x) l = Some y
       /\ Value y = Value x
       /\ (Forall (fun z => Value z = Value x -> z = x) l -> y = x).
Proof.
  intros [Hv Hn _ _ Hnd Hne] Hx. split.
  - unfold SmartEnum.FromName, SmartEnum.TryFromName,
      SmartEnum.TryFromNameInternal.
    run_monad. rewrite (Hn (Name x)).
    fold (first_with_name (Name x) l). by rewrite first_with_name_self.
  - destruct (first_with_value_of_member l x Hx) as (y & Hy & Hrest).
    exists y. split; [|by split].
    unfold SmartEnum.FromValue, SmartEnum.TryFromValue,
      SmartEnum.TryFromValueInternal.
    run_monad. rewrite (Hv (Value x)).
    fold (first_with_value (Value x) l). by rewrite Hy.
Qed.

(** C8.  The SmartEnum.hpp whose [List()] is [return instances();] returns
    the registered instances in registration order.  The [List()] of
    include/SmartEnum.hpp returns a permutation of them; its first call
    sorts the vector, so that call returns them ascending by name. *)
Theorem C8_List_order_in_both_headers :
  (forall l s, enum_history l s -> SmartEnum.List s = Ok l s)
  /\ (forall l s, include_history l s ->
        exists r s', SmartEnumInclude.List s = Ok r s'
          /\ Permutation r l
          /\ (enum_listInitFlag s = false ->
              r = std_sort name_less (enum_instances s)
              /\ ascending_by_name r))
  /\ (forall defs s,
        construct_all SmartEnumInclude.SmartEnum defs enum_initial = Ok tt s ->
        returned (SmartEnumInclude.List s)
        = Some (std_sort name_less (map instance_of defs))).
Proof.
  split; [|split].
  - intros l s Hh. destruct (enum_history_ok _ _ Hh) as [_ <-]. reflexivity.
  - intros l s Hh. apply include_history_ok in Hh as [_ _ _ Hi _ _].
    rewrite include_List_ok. destruct (enum_listInitFlag s).
    + exists (enum_instances s), s. by repeat split.
    + eexists _, _. split; [reflexivity|].
      split; [by rewrite std_sort_perm|]. intros _.
      split; [reflexivity | apply std_sort_ascending_by_name].
  - intros defs s Hc.
    destruct (include_construct_all_history defs [] _ _
                include_history_initial Hc) as (_ & Hf & Hi).
    rewrite include_List_ok, Hf, Hi. reflexivity.
Qed.

(** C9.  For an instance [x] registered in a SmartEnum type (either header,
    at any point of its history): [FromName(x.Name())] returns [x], and
    [FromValue(x.Value())] returns the first registered instance whose value
    is that of [x]; it has the value of [x], and it is [x] itself when no
    other registered instance shares the value. *)
Theorem C9_round_trip_up_to_first_registrant :
  (forall l s x, include_history l s -> x ∈ l ->
     SmartEnumInclude.FromName (Name x) false s = Ok x s
     /\ exists y, SmartEnumInclude.FromValue (Value x) s = Ok y s
          /\ first_with_value (Value x) l = Some y
          /\ Value y = Value x
          /\ (Forall (fun z => Value z = Value x -> z = x) l -> y = x))
  /\ (forall l s x, enum_history l s -> x ∈ l ->
     SmartEnum.FromName (Name x) false s = Ok x s
     /\ exists y, SmartEnum.FromValue (Value x) s = Ok y s
          /\ first_with_value (Value x) l = Some y
          /\ Value y = Value x
          /\ (Forall (fun z => Value z = Value x -> z = x) l -> y = x)).
Proof.
  split; intros l s x Hh Hx.
  - apply include_round_trip; [by apply include_history_ok | done].
  - apply enum_round_trip; [by apply enum_history_ok | done].
Qed.

(** Whatever [std::sort] is linked in, [TestEnum::List()] of
    include/SmartEnum.hpp is [One, Three, Two]. *)
Lemma include_TestEnum_List :
  returned (SmartEnumInclude.List (include_statics TestEnum))
  = Some [mkInst "One" 1; mkInst "Three" 3; mkInst "Two" 2].
Proof.
  rewrite include_List_ok.
  change (enum_listInitFlag (include_statics TestEnum)) with false. cbv iota.
  cbn [returned]. rewrite std_sort_by_name_determined by compute_done.
  vm_compute. reflexivity.
Qed.

End enum_claims.

Section enum_examples.

(** C8, at the [TestEnum] of the tests under include/SmartEnum.hpp: the
    instances are registered as One, Two, Three and [List()] returns
    One, Three, Two. *)
Lemma C8_counterexample_include_List_sorts_by_name :
  map instance_of TestEnum
  = [mkInst "One" 1; mkInst "Two" 2; mkInst "Three" 3]
  /\ construct_all SmartEnumInclude.SmartEnum TestEnum enum_initial
     = Ok tt (include_statics TestEnum)
  /\ returned (SmartEnumInclude.List (include_statics TestEnum))
     = Some [mkInst "One" 1; mkInst "Three" 3; mkInst "Two" 2].
Proof. repeat apply conj; vm_compute; reflexivity. Qed.

Lemma enum_history_TestEnum :
  enum_history [mkInst "One" 1; mkInst "Two" 2; mkInst "Three" 3]
    (enum_statics TestEnum).
Proof.
  apply (enum_construct_all_history TestEnum [] enum_initial);
    [constructor | vm_compute; reflexivity].
Defined.

Lemma C8_witness_registration_order :
  SmartEnum.List (enum_statics TestEnum)
  = Ok [mkInst "One" 1; mkInst "Two" 2; mkInst "Three" 3]
      (enum_statics TestEnum).
Proof.
  exact (proj1 C8_List_order_in_both_headers _ _ enum_history_TestEnum).
Defined.

(** C9, at {A=1, B=1} under include/SmartEnum.hpp: B is registered, and
    [FromValue(B.Value())] returns A. *)
Lemma C9_counterexample_shared_value :
  construct_all SmartEnumInclude.SmartEnum SharedValue enum_initial
  = Ok tt (include_statics SharedValue)
  /\ enum_instances (include_statics SharedValue)
     = [mkInst "A" 1; mkInst "B" 1]
  /\ SmartEnumInclude.FromValue (Value (mkInst "B" 1))
       (include_statics SharedValue)
     = Ok (mkInst "A" 1) (include_statics SharedValue)
  /\ mkInst "A" 1 <> mkInst "B" 1.
Proof. repeat apply conj; try (vm_compute; reflexivity). discriminate. Qed.

Lemma include_history_SharedValue :
  include_history [mkInst "A" 1; mkInst "B" 1] (include_statics SharedValue).
Proof.
  apply (include_construct_all_history SharedValue [] enum_initial);
    [constructor | vm_compute; reflexivity].
Defined.

Lemma C9_witness_shared_value :
  SmartEnumInclude.FromName (Name (mkInst "B" 1)) false
    (include_statics SharedValue)
  = Ok (mkInst "B" 1) (include_statics SharedValue)
  /\ exists y,
       SmartEnumInclude.FromValue (Value (mkInst "B" 1))
         (include_statics SharedValue)
       = Ok y (include_statics SharedValue)
       /\ first_with_value (Value (mkInst "B" 1))
            [mkInst "A" 1; mkInst "B" 1] = Some y
       /\ Value y = Value (mkInst "B" 1)
       /\ (Forall (fun z => Value z = Value (mkInst "B" 1) -> z = mkInst "B" 1)
             [mkInst "A" 1; mkInst "B" 1] -> y = mkInst "B" 1).
Proof.
  refine (proj1 C9_round_trip_up_to_first_registrant _ _ (mkInst "B" 1)
            include_history_SharedValue _).
  compute_done.
Defined.

End enum_examples.

(** ** The assertions of the repository's tests, replayed on the embedding *)

Section repository_tests.

Import SmartFlagEnum.
Context `{StdSort}.

Ltac replay :=
  rewrite ?FromValue_ok, ?TryFromValue_ok, ?FromValueToString_ok,
    ?TryFromValueToString_ok, ?List_ok;
  rewrite ?TryFromValue_result_determined by compute_done;
  vm_compute; reflexivity.

(** SmartFlagEnumTest.CombinationAndExplicitValues *)
Example test_Flags_FromValue_3 :
  returned (FromValue 3 (statics Flags)) = Some [mkInst "AB" 3].
Proof. replay. Qed.

Example test_Flags_FromValue_5 :
  returned (FromValue 5 (statics Flags)) = Some [mkInst "C" 4; mkInst "A" 1].
Proof. replay. Qed.

Example test_Flags_FromValue_minus_1 :
  returned (FromValue (-1) (statics Flags)) = Some [mkInst "All" (-1)].
Proof. replay. Qed.

(** SmartFlagEnumTest.InvalidInputs.  The union of [Flags] is all ones, so 8
    passes the coverage test; it is the remainder left by the loop that
    makes the call fail. *)
Example test_Flags_TryFromValue_8 :
  returned (fitsInDefinedFlags 8 (statics Flags)) = Some true
  /\ returned (TryFromValue 8 (statics Flags)) = Some (false, [mkInst "None" 0]).
Proof. split; replay. Qed.

Example test_NoNegFlags_TryFromValue_minus_5 :
  returned (TryFromValue (-5) (statics NoNegFlags)) = Some (false, []).
Proof. replay. Qed.

(** SmartFlagEnumTest.AllowUnsafeFlagValues *)
Example test_SparseFlags_FromValue_5 :
  returned (FromValue 5 (statics SparseFlags))
  = Some [mkInst "Bit3" 4; mkInst "Bit1" 1].
Proof. replay. Qed.

(** SameNameEnumsTest.FlagEnumNamespaces *)
Example test_Options_FromValue :
  returned (FromValue 3 (statics FirstOptions))
  = Some [mkInst "OptionB" 2; mkInst "OptionA" 1]
  /\ returned (FromValue 3 (statics SecondOptions))
     = Some [mkInst "Advanced" 2; mkInst "Basic" 1]
  /\ returned (FromValue (-1) (statics SecondOptions))
     = Some [mkInst "All" (-1)]
  /\ (length <$> returned (List (statics FirstOptions))) = Some 4%nat
  /\ (length <$> returned (List (statics SecondOptions))) = Some 3%nat.
Proof. repeat apply conj; replay. Qed.

(** SmartEnumTest.LookupByNameAndValue, under either header *)
Example test_TestEnum_include :
  returned (SmartEnumInclude.FromName "One" false (include_statics TestEnum))
  = Some (mkInst "One" 1)
  /\ SmartEnumInclude.FromName "one" false (include_statics TestEnum)
     = Throw SmartEnumNotFoundException (include_statics TestEnum)
  /\ returned (SmartEnumInclude.FromName "one" true (include_statics TestEnum))
     = Some (mkInst "One" 1)
  /\ returned (SmartEnumInclude.TryFromName "Two" false
                 (include_statics TestEnum))
     = Some (true, Some (mkInst "Two" 2))
  /\ returned (SmartEnumInclude.TryFromName "InvalidName" false
                 (include_statics TestEnum))
     = Some (false, None)
  /\ returned (SmartEnumInclude.FromValue 3 (include_statics TestEnum))
     = Some (mkInst "Three" 3)
  /\ SmartEnumInclude.FromValue 99 (include_statics TestEnum)
     = Throw SmartEnumNotFoundException (include_statics TestEnum)
  /\ returned (SmartEnumInclude.TryFromValue 42 (include_statics TestEnum))
     = Some (false, None).
Proof. repeat apply conj; vm_compute; reflexivity. Qed.

Example test_TestEnum_enum :
  returned (SmartEnum.FromName "One" false (enum_statics TestEnum))
  = Some (mkInst "One" 1)
  /\ SmartEnum.FromName "one" false (enum_statics TestEnum)
     = Throw SmartEnumNotFoundException (enum_statics TestEnum)
  /\ returned (SmartEnum.FromName "one" true (enum_statics TestEnum))
     = Some (mkInst "One" 1)
  /\ returned (SmartEnum.TryFromName "Two" false (enum_statics TestEnum))
     = Some (true, Some (mkInst "Two" 2))
  /\ returned (SmartEnum.FromValue 3 (enum_statics TestEnum))
     = Some (mkInst "Three" 3)
  /\ SmartEnum.FromValue 99 (enum_statics TestEnum)
     = Throw SmartEnumNotFoundException (enum_statics TestEnum)
  /\ returned (SmartEnum.TryFromValue 1 (enum_statics TestEnum))
     = Some (true, Some (mkInst "One" 1))
  /\ (length <$> returned (SmartEnum.List (enum_statics TestEnum)))
     = Some 3%nat.
Proof. repeat apply conj; vm_compute; reflexivity. Qed.

End repository_tests.

(** * Further properties of the headers *)

(** ** Lookups and registration in the two SmartEnum headers *)

Ltac enum_fields :=
  cbn [enum_instances enum_nameMap enum_nameMapIgnoreCase enum_valueMap
       enum_listInitFlag push_instance set_nameMap set_nameMapIgnoreCase
       set_valueMap Name Value] in *.

Section enum_lookups.
Context `{StdSort}.

Lemma first_with_name_Some n l y :
  first_with_name n l = Some y -> y ∈ l /\ Name y = n.
Proof.
  unfold first_with_name. intros Hf.
  destruct (find_some _ _ Hf) as [Hin Heq].
  split; [by apply list_elem_of_In | by apply String.eqb_eq].
Qed.

Lemma first_with_name_hit n l :
  n ∈ map Name l -> is_Some (first_with_name n l).
Proof.
  intros Hin. destruct (first_with_name n l) eqn:E; [eauto|].
  by apply first_with_name_None in E.
Qed.

Lemma enum_registerInstance_runs i s :
  enum_nameMap s !! Name i = None ->
  exists s', SmartEnum.registerInstance i s = Ok tt s'.
Proof.
  intros Hn. unfold SmartEnum.registerInstance. run_monad.
  unfold count. rewrite Hn. enum_fields.
  destruct (enum_nameMapIgnoreCase s !! _); cbn;
    destruct (enum_valueMap s !! _); cbn; eauto.
Qed.

(** X1.  The constructor of the SmartEnum.hpp with out-of-line definitions,
    in a state reached by successful constructions [l]: an empty name throws
    [std::invalid_argument], a name already registered throws
    [std::runtime_error], and both leave the statics untouched; any other
    name is registered, and [List()] then ends with the new instance. *)
Theorem construction_fails_on_empty_or_duplicate_name l s name value :
  enum_history l s ->
  (empty name = true ->
   SmartEnum.SmartEnum name value s = Throw invalid_argument s)
  /\ (empty name = false -> name ∈ map Name l ->
      SmartEnum.SmartEnum name value s = Throw (runtime_error name) s)
  /\ (empty name = false -> name ∉ map Name l ->
      exists s',
        SmartEnum.SmartEnum name value s = Ok tt s'
        /\ enum_history (l ++ [mkInst name value]) s'
        /\ SmartEnum.List s' = Ok (l ++ [mkInst name value]) s').
Proof.
  intros Hh. destruct (enum_history_ok _ _ Hh) as [Hok Hl].
  repeat apply conj.
  - intros He. unfold SmartEnum.SmartEnum. by rewrite He.
  - intros He Hin. unfold SmartEnum.SmartEnum. rewrite He.
    destruct (SmartEnum.registerInstance (mkInst name value) s) as [[] s'|e s'] eqn:E.
    + apply enum_registerInstance_ok in E. destruct E as [Hn _].
      cbn in Hn. rewrite (enum_ok_name _ _ Hok) in Hn.
      apply first_with_name_None in Hn. done.
    + apply enum_registerInstance_throw in E. destruct E as [-> ->]. done.
  - intros He Hnin. unfold SmartEnum.SmartEnum. rewrite He.
    destruct (enum_registerInstance_runs (mkInst name value) s) as [s' Hs'].
    { cbn. rewrite (enum_ok_name _ _ Hok).
      destruct (find _ l) eqn:E; [|done].
      apply first_with_name_Some in E. destruct E as [Hin <-].
      exfalso. apply Hnin. apply list_elem_of_fmap. eauto. }
    exists s'. split; [done|].
    assert (Hh' : enum_history (l ++ [mkInst name value]) s').
    { eapply enum_history_construct; [done|].
      unfold SmartEnum.SmartEnum. by rewrite He. }
    split; [done|].
    destruct (enum_history_ok _ _ Hh') as [_ Hl'].
    unfold SmartEnum.List, gets. by rewrite Hl'.
Qed.


Lemma include_TryFromNameInternal_ok l s n ignoreCase :
  enum_registry_ok l s ->
  SmartEnumInclude.TryFromNameInternal n ignoreCase s
  = Ok (first_matching_name n ignoreCase l) s.
Proof.
  intros Hok. unfold SmartEnumInclude.TryFromNameInternal, first_matching_name.
  destruct (empty n) eqn:He.
  - destruct n; [|discriminate]. unfold ret. f_equal.
    assert (Hne := enum_ok_nonempty _ _ Hok).
    clear -Hne. induction Hne as [|x l Hx _ IH]; [by destruct ignoreCase|].
    unfold first_with_name, lower_name in *. cbn.
    destruct (Name x); [discriminate|]. cbn. exact IH.
  - destruct ignoreCase; cbn; unfold gets.
    + by rewrite (enum_ok_lower _ _ Hok).
    + by rewrite (enum_ok_name _ _ Hok).
Qed.

Lemma enum_TryFromNameInternal_ok l s n ignoreCase :
  enum_registry_ok l s ->
  SmartEnum.TryFromNameInternal n ignoreCase s
  = Ok (first_matching_name n ignoreCase l) s.
Proof.
  intros Hok. unfold SmartEnum.TryFromNameInternal, first_matching_name.
  destruct ignoreCase; cbn; unfold gets.
  - by rewrite (enum_ok_lower _ _ Hok).
  - by rewrite (enum_ok_name _ _ Hok).
Qed.

Lemma find_key_Some {K} (key : Inst -> K) (eqb : K -> K -> bool)
  (eqb_spec : forall a b, eqb a b = true <-> a = b) k l y :
  find (fun x => eqb (key x) k) l = Some y ->
  y ∈ l /\ key y = k
  /\ exists l1 l2, l = l1 ++ y :: l2 /\ Forall (fun x => key x <> k) l1.
Proof.
  induction l as [|x l IH]; [discriminate|]. cbn.
  destruct (eqb (key x) k) eqn:E.
  - intros [= ->]. apply eqb_spec in E.
    repeat apply conj; [left | done | by exists [], l].
  - intros Hf. destruct (IH Hf) as (Hin & Hk & l1 & l2 & -> & Hl1).
    repeat apply conj; [by right | done |].
    exists (x :: l1), l2. split; [done|]. constructor; [|done].
    intros Hx. apply eqb_spec in Hx. congruence.
Qed.

Lemma find_key_None {K} (key : Inst -> K) (eqb : K -> K -> bool)
  (eqb_spec : forall a b, eqb a b = true <-> a = b) k l :
  find (fun x => eqb (key x) k) l = None ->
  Forall (fun x => key x <> k) l.
Proof.
  induction l as [|x l IH]; [constructor|]. cbn.
  destruct (eqb (key x) k) eqn:E; [discriminate|].
  intros Hf. constructor; [|by apply IH].
  intros Hx. apply eqb_spec in Hx. congruence.
Qed.


Lemma find_name_matches n ignoreCase l :
  match first_matching_name n ignoreCase l with
  | Some y => first_match (name_matches n ignoreCase) l y
  | None => Forall (fun x => ~ name_matches n ignoreCase x) l
  end.
Proof.
  unfold first_matching_name, first_with_name, name_matches.
  destruct ignoreCase.
  - destruct (find _ l) as [y|] eqn:E.
    + apply (find_key_Some lower_name String.eqb String.eqb_eq) in E.
      destruct E as (_ & Hy & l1 & l2 & -> & Hl1). by exists l1, l2.
    + by apply (find_key_None lower_name String.eqb String.eqb_eq) in E.
  - destruct (find _ l) as [y|] eqn:E.
    + apply (find_key_Some Name String.eqb String.eqb_eq) in E.
      destruct E as (_ & Hy & l1 & l2 & -> & Hl1). by exists l1, l2.
    + by apply (find_key_None Name String.eqb String.eqb_eq) in E.
Qed.

Lemma find_value_matches v l :
  match first_with_value v l with
  | Some y => first_match (fun x => Value x = v) l y
  | None => Forall (fun x => Value x <> v) l
  end.
Proof.
  unfold first_with_value.
  destruct (find _ l) as [y|] eqn:E.
  - apply (find_key_Some Value Z.eqb Z.eqb_eq) in E.
    destruct E as (_ & Hy & l1 & l2 & -> & Hl1). by exists l1, l2.
  - by apply (find_key_None Value Z.eqb Z.eqb_eq) in E.
Qed.

(** X5.  [FromName] and [TryFromName] of both SmartEnum headers: the result
    is the first registered instance whose name is the given one (whose
    lower-cased name is the lower-cased given one, if [ignoreCase]); if no
    registered instance matches, [FromName] throws
    [SmartEnumNotFoundException] and [TryFromName] returns false.  The
    statics are not changed. *)
Theorem FromName_returns_first_match_or_throws :
  (forall l s n ignoreCase,
     enum_history l s ->
     (exists y,
        first_match (name_matches n ignoreCase) l y
        /\ SmartEnum.FromName n ignoreCase s = Ok y s
        /\ SmartEnum.TryFromName n ignoreCase s = Ok (true, Some y) s)
     \/ (Forall (fun x => ~ name_matches n ignoreCase x) l
         /\ SmartEnum.FromName n ignoreCase s
            = Throw SmartEnumNotFoundException s
         /\ SmartEnum.TryFromName n ignoreCase s = Ok (false, None) s))
  /\ (forall l s n ignoreCase,
        include_history l s ->
        (exists y,
           first_match (name_matches n ignoreCase) l y
           /\ SmartEnumInclude.FromName n ignoreCase s = Ok y s
           /\ SmartEnumInclude.TryFromName n ignoreCase s
              = Ok (true, Some y) s)
        \/ (Forall (fun x => ~ name_matches n ignoreCase x) l
            /\ SmartEnumInclude.FromName n ignoreCase s
               = Throw SmartEnumNotFoundException s
            /\ SmartEnumInclude.TryFromName n ignoreCase s
               = Ok (false, None) s)).
Proof.
  split; intros l s n ignoreCase Hh.
  - destruct (enum_history_ok _ _ Hh) as [Hok _].
    assert (Hm := find_name_matches n ignoreCase l).
    unfold SmartEnum.FromName, SmartEnum.TryFromName, bind, ret, throw.
    rewrite (enum_TryFromNameInternal_ok l s n ignoreCase Hok).
    destruct (first_matching_name n ignoreCase l) as [y|]; [left; exists y|right];
      by rewrite ?bool_decide_true, ?bool_decide_false by naive_solver.
  - assert (Hok := include_history_ok _ _ Hh).
    assert (Hm := find_name_matches n ignoreCase l).
    unfold SmartEnumInclude.FromName, SmartEnumInclude.TryFromName,
      bind, ret, throw.
    rewrite (include_TryFromNameInternal_ok l s n ignoreCase Hok).
    destruct (first_matching_name n ignoreCase l) as [y|]; [left; exists y|right];
      by rewrite ?bool_decide_true, ?bool_decide_false by naive_solver.
Qed.

(** X6.  [FromValue] and [TryFromValue] of both SmartEnum headers: the result
    is the first registered instance with the given value; if there is none,
    [FromValue] throws [SmartEnumNotFoundException] and [TryFromValue]
    returns false.  The statics are not changed. *)
Theorem FromValue_returns_first_match_or_throws :
  (forall l s v,
     enum_history l s ->
     (exists y,
        first_match (fun x => Value x = v) l y
        /\ SmartEnum.FromValue v s = Ok y s
        /\ SmartEnum.TryFromValue v s = Ok (true, Some y) s)
     \/ (Forall (fun x => Value x <> v) l
         /\ SmartEnum.FromValue v s = Throw SmartEnumNotFoundException s
         /\ SmartEnum.TryFromValue v s = Ok (false, None) s))
  /\ (forall l s v,
        include_history l s ->
        (exists y,
           first_match (fun x => Value x = v) l y
           /\ SmartEnumInclude.FromValue v s = Ok y s
           /\ SmartEnumInclude.TryFromValue v s = Ok (true, Some y) s)
        \/ (Forall (fun x => Value x <> v) l
            /\ SmartEnumInclude.FromValue v s
               = Throw SmartEnumNotFoundException s
            /\ SmartEnumInclude.TryFromValue v s = Ok (false, None) s)).
Proof.
  split; intros l s v Hh.
  - destruct (enum_history_ok _ _ Hh) as [Hok _].
    assert (Hm := find_value_matches v l).
    unfold SmartEnum.FromValue, SmartEnum.TryFromValue,
      SmartEnum.TryFromValueInternal, bind, ret, throw, gets.
    rewrite (enum_ok_value _ _ Hok). fold (first_with_value v l).
    destruct (first_with_value v l) as [y|]; [left; exists y|right];
      by rewrite ?bool_decide_true, ?bool_decide_false by naive_solver.
  - assert (Hok := include_history_ok _ _ Hh).
    assert (Hm := find_value_matches v l).
    unfold SmartEnumInclude.FromValue, SmartEnumInclude.TryFromValue,
      SmartEnumInclude.TryFromValueInternal, bind, ret, throw, gets.
    rewrite (enum_ok_value _ _ Hok). fold (first_with_value v l).
    destruct (first_with_value v l) as [y|]; [left; exists y|right];
      by rewrite ?bool_decide_true, ?bool_decide_false by naive_solver.
Qed.


Lemma registered_keeps_lookups i s s' :
  registered i s s' ->
  (forall v y, enum_valueMap s !! v = Some y -> enum_valueMap s' !! v = Some y)
  /\ (forall n y, enum_nameMap s !! n = Some y -> enum_nameMap s' !! n = Some y)
  /\ (forall n y, enum_nameMapIgnoreCase s !! n = Some y ->
                  enum_nameMapIgnoreCase s' !! n = Some y).
Proof.
  intros (Hn & _ & -> & -> & -> & _). unfold count.
  repeat apply conj.
  - intros v y Hv. destruct (enum_valueMap s !! Value i) eqn:E; cbn; [done|].
    rewrite lookup_insert_ne; [done | congruence].
  - intros n y Hy. rewrite lookup_insert_ne; [done | congruence].
  - intros n y Hy.
    destruct (enum_nameMapIgnoreCase s !! lower_name i) eqn:E; cbn; [done|].
    rewrite lookup_insert_ne; [done | congruence].
Qed.

(** X7.  In both SmartEnum headers a successful construction changes no
    answer a lookup gave before it: what [FromValue] or [FromName] returned
    in the old state they return in the new one. *)
Theorem registration_keeps_earlier_lookups :
  (forall s name value s',
     SmartEnum.SmartEnum name value s = Ok tt s' ->
     (forall v y, SmartEnum.FromValue v s = Ok y s ->
                  SmartEnum.FromValue v s' = Ok y s')
     /\ (forall n ignoreCase y,
           SmartEnum.FromName n ignoreCase s = Ok y s ->
           SmartEnum.FromName n ignoreCase s' = Ok y s'))
  /\ (forall s name value s',
        SmartEnumInclude.SmartEnum name value s = Ok tt s' ->
        (forall v y, SmartEnumInclude.FromValue v s = Ok y s ->
                     SmartEnumInclude.FromValue v s' = Ok y s')
        /\ (forall n ignoreCase y,
              SmartEnumInclude.FromName n ignoreCase s = Ok y s ->
              SmartEnumInclude.FromName n ignoreCase s' = Ok y s')).
Proof.
  split; intros s name value s' Hc.
  - unfold SmartEnum.SmartEnum in Hc.
    destruct (empty name); [discriminate|].
    apply enum_registerInstance_ok, registered_keeps_lookups in Hc.
    destruct Hc as (Hv & Hn & Hl). split.
    + intros v y. unfold SmartEnum.FromValue, SmartEnum.TryFromValue,
        SmartEnum.TryFromValueInternal, bind, ret, throw, gets.
      destruct (enum_valueMap s !! v) as [x|] eqn:E.
      * rewrite (Hv _ _ E). rewrite !bool_decide_true by done. congruence.
      * rewrite bool_decide_false by naive_solver. discriminate.
    + intros n ignoreCase y. unfold SmartEnum.FromName, SmartEnum.TryFromName,
        SmartEnum.TryFromNameInternal, bind, ret, throw, gets.
      destruct ignoreCase.
      * destruct (enum_nameMapIgnoreCase s !! _) as [x|] eqn:E.
        -- rewrite (Hl _ _ E). rewrite !bool_decide_true by done. congruence.
        -- rewrite bool_decide_false by naive_solver. discriminate.
      * destruct (enum_nameMap s !! _) as [x|] eqn:E.
        -- rewrite (Hn _ _ E). rewrite !bool_decide_true by done. congruence.
        -- rewrite bool_decide_false by naive_solver. discriminate.
  - unfold SmartEnumInclude.SmartEnum in Hc.
    destruct (empty name); [discriminate|].
    apply include_registerInstance_ok, registered_keeps_lookups in Hc.
    destruct Hc as (Hv & Hn & Hl). split.
    + intros v y. unfold SmartEnumInclude.FromValue,
        SmartEnumInclude.TryFromValueInternal, bind, ret, throw, gets.
      destruct (enum_valueMap s !! v) as [x|] eqn:E; [|discriminate].
      rewrite (Hv _ _ E). congruence.
    + intros n ignoreCase y. unfold SmartEnumInclude.FromName,
        SmartEnumInclude.TryFromNameInternal, bind, ret, throw, gets.
      destruct (empty n); [discriminate|].
      destruct ignoreCase; cbn.
      * destruct (enum_nameMapIgnoreCase s !! _) as [x|] eqn:E; [|discriminate].
        rewrite (Hl _ _ E). congruence.
      * destruct (enum_nameMap s !! _) as [x|] eqn:E; [|discriminate].
        rewrite (Hn _ _ E). congruence.
Qed.


(** X8.  [List()] of include/SmartEnum.hpp sorts under [std::call_once]:
    a second call returns the same list and changes nothing; an instance
    constructed after the first call is appended behind the sorted ones and
    never sorted in; and the call changes no answer of [FromValue] or
    [FromName]. *)
Theorem include_List_sorts_only_once s r s1 :
  SmartEnumInclude.List s = Ok r s1 ->
  SmartEnumInclude.List s1 = Ok r s1
  /\ (forall name value s2,
        SmartEnumInclude.SmartEnum name value s1 = Ok tt s2 ->
        SmartEnumInclude.List s2 = Ok (r ++ [mkInst name value]) s2)
  /\ (forall v, returned (SmartEnumInclude.FromValue v s1)
                = returned (SmartEnumInclude.FromValue v s))
  /\ (forall n ignoreCase,
        returned (SmartEnumInclude.FromName n ignoreCase s1)
        = returned (SmartEnumInclude.FromName n ignoreCase s)).
Proof.
  rewrite include_List_ok. intros Hl.
  assert (Hs1 : enum_listInitFlag s1 = true /\ enum_instances s1 = r
                /\ enum_nameMap s1 = enum_nameMap s
                /\ enum_nameMapIgnoreCase s1 = enum_nameMapIgnoreCase s
                /\ enum_valueMap s1 = enum_valueMap s).
  { destruct (enum_listInitFlag s) eqn:E; injection Hl as <- <-; done. }
  destruct Hs1 as (Hf & Hi & Hn & Hc & Hv).
  repeat apply conj.
  - rewrite include_List_ok, Hf. by rewrite Hi.
  - intros name value s2 Hc2. unfold SmartEnumInclude.SmartEnum in Hc2.
    destruct (empty name); [discriminate|].
    apply include_registerInstance_ok in Hc2.
    destruct Hc2 as (_ & Hi2 & _ & _ & _ & Hf2).
    rewrite include_List_ok, Hf2, Hf. by rewrite Hi2, Hi.
  - intros v. unfold SmartEnumInclude.FromValue,
      SmartEnumInclude.TryFromValueInternal, bind, ret, throw, gets.
    rewrite Hv. by destruct (enum_valueMap s !! v).
  - intros n ignoreCase. unfold SmartEnumInclude.FromName,
      SmartEnumInclude.TryFromNameInternal, bind, ret, throw, gets.
    destruct (empty n); [done|]. destruct ignoreCase; cbn.
    + rewrite Hc. by destruct (enum_nameMapIgnoreCase s !! _).
    + rewrite Hn. by destruct (enum_nameMap s !! _).
Qed.

End enum_lookups.

(** ** Bit patterns: what the greedy decomposition returns *)

Section flag_bit_patterns.
Import SmartFlagEnum.

Lemma fold_lor_acc (l : list Inst) (acc : Z) :
  fold_left (fun a i => Z.lor a (Value i)) l acc = Z.lor acc (union_of l).
Proof.
  unfold union_of. revert acc.
  induction l as [|f l IH]; intros acc; cbn [fold_left].
  - by rewrite Z.lor_0_r.
  - rewrite IH, (IH (Z.lor 0 (Value f))), Z.lor_0_l. apply eq_sym, Z.lor_assoc.
Qed.

Lemma union_of_cons f l : union_of (f :: l) = Z.lor (Value f) (union_of l).
Proof.
  unfold union_of at 1. cbn [fold_left]. by rewrite fold_lor_acc, Z.lor_0_l.
Qed.

(** Equations between bit patterns, bit by bit. *)
Ltac bitwise n :=
  repeat match goal with
  | H : @eq Z _ _ |- _ =>
      apply (f_equal (fun z => Z.testbit z n)) in H; cbv beta in H
  end;
  repeat first
    [ rewrite Z.land_spec in * | rewrite Z.lor_spec in *
    | rewrite Z.lnot_spec in * by assumption | rewrite Z.bits_0 in * ];
  repeat match goal with
  | H : context [Z.testbit ?x n] |- _ => destruct (Z.testbit x n)
  | |- context [Z.testbit ?x n] => destruct (Z.testbit x n)
  end;
  cbn in *; congruence.

Lemma decompose_loop_sound (l : list Inst) :
  forall r out,
    exists new,
      snd (decompose_loop l r out) = out ++ new
      /\ sublist new l
      /\ disjoint_values new
      /\ Forall (fun f => Z.land r (Value f) = Value f) new
      /\ r = Z.lor (fst (decompose_loop l r out)) (union_of new)
      /\ Z.land (fst (decompose_loop l r out)) (union_of new) = 0.
Proof.
  induction l as [|f l IH]; intros r out; cbn [decompose_loop].
  - exists []. cbn. rewrite app_nil_r, Z.lor_0_r, Z.land_0_r.
    repeat apply conj; try done; constructor.
  - destruct (Z.land r (Value f) =? Value f) eqn:Einc.
    + apply Z.eqb_eq in Einc.
      destruct (Z.land r (Z.lnot (Value f)) =? 0) eqn:Ez.
      * apply Z.eqb_eq in Ez. exists [f]. cbn [fst snd].
        rewrite union_of_cons. change (union_of []) with 0.
        rewrite Z.lor_0_r.
        repeat apply conj.
        -- done.
        -- apply sublist_skip, sublist_nil_l.
        -- repeat constructor.
        -- by constructor.
        -- apply Z.bits_inj'. intros n Hn. bitwise n.
        -- apply Z.bits_inj'. intros n Hn. bitwise n.
      * destruct (IH (Z.land r (Z.lnot (Value f))) (out ++ [f]))
          as (new & Hsnd & Hsub & Hdis & Hcon & Hr & Hz).
        exists (f :: new). rewrite Hsnd, union_of_cons.
        set (r' := fst (decompose_loop l (Z.land r (Z.lnot (Value f)))
                          (out ++ [f]))) in *.
        clearbody r'. clear Hsnd IH Ez.
        repeat apply conj.
        -- by rewrite <- app_assoc.
        -- by apply sublist_skip.
        -- constructor; [|done].
           eapply List.Forall_impl; [|exact Hcon]. cbv beta.
           intros g Hg. clear -Hg Einc.
           apply Z.bits_inj'. intros n Hn. bitwise n.
        -- constructor; [done|].
           eapply List.Forall_impl; [|exact Hcon]. cbv beta.
           intros g Hg. clear -Hg.
           apply Z.bits_inj'. intros n Hn. bitwise n.
        -- clear -Hr Einc. apply Z.bits_inj'. intros n Hn. bitwise n.
        -- clear -Hr Hz Einc. apply Z.bits_inj'. intros n Hn. bitwise n.
    + destruct (r =? 0) eqn:Ez.
      * apply Z.eqb_eq in Ez. exists []. cbn [fst snd].
        change (union_of []) with 0.
        rewrite app_nil_r, Z.lor_0_r, Z.land_0_r.
        repeat apply conj; try done; try constructor. apply sublist_nil_l.
      * destruct (IH r out) as (new & Hsnd & Hsub & Hdis & Hcon & Hr & Hz).
        exists new. repeat apply conj; try done. by apply sublist_cons.
Qed.


Lemma filter_none {A} (p : A -> bool) (l : list A) :
  Forall (fun x => p x = false) l -> List.filter p l = [].
Proof.
  induction 1 as [|x l Hx _ IH]; [done|]. cbn. by rewrite Hx.
Qed.

Lemma pow2_land_ne (r k : Z) :
  0 <= k -> Z.testbit r k = false -> (Z.land r (2 ^ k) =? 2 ^ k) = false.
Proof.
  intros Hk Hbit. apply Z.eqb_neq. intros Heq.
  apply (f_equal (fun z => Z.testbit z k)) in Heq. cbv beta in Heq.
  rewrite Z.land_spec, Hbit, Z.pow2_bits_true in Heq by assumption.
  discriminate.
Qed.

Lemma pow2_nonzero (k : Z) : 0 <= k -> (2 ^ k =? 0) = false.
Proof. intros Hk. apply Z.eqb_neq. pose proof (Z.pow_pos_nonneg 2 k). lia. Qed.

Lemma isPowerOfTwo_exp (v : Z) :
  isPowerOfTwo v = true -> exists k, 0 <= k /\ v = 2 ^ k.
Proof.
  intros Hp. exists (Z.log2 v).
  split; [apply Z.log2_nonneg | by apply isPowerOfTwo_pow2].
Qed.

Lemma pow2_inj (j k : Z) : 0 <= j -> 0 <= k -> 2 ^ j = 2 ^ k -> j = k.
Proof.
  intros Hj Hk Heq. apply (f_equal Z.log2) in Heq.
  by rewrite !Z.log2_pow2 in Heq.
Qed.

(** On a list of distinct values that are zero or a power of two, ordered
    descending, the greedy loop picks exactly the flags contained in the
    remainder, provided the remainder is not zero and each of its bits is
    the value of a flag of the list. *)
Lemma decompose_loop_exact (l : list Inst) :
  descending l ->
  Forall (fun f => Value f = 0 \/ isPowerOfTwo (Value f) = true) l ->
  NoDup (map Value l) ->
  forall r out,
    r <> 0 ->
    (forall n, 0 <= n -> Z.testbit r n = true ->
       exists f, f ∈ l /\ Value f = 2 ^ n) ->
    decompose_loop l r out = (0, out ++ List.filter (contained r) l).
Proof.
  induction l as [|g l IH]; intros Hdesc Hshape Hnd r out Hr Hcov.
  { exfalso. apply Hr, no_bits_zero. intros n Hn.
    destruct (Z.testbit r n) eqn:E; [|done].
    destruct (Hcov n Hn E) as (f & Hf & _). by inversion Hf. }
  apply StronglySorted_inv in Hdesc as [Hdesc Hge].
  apply Forall_cons in Hshape as [Hg Hshape].
  cbn [map] in Hnd. apply NoDup_cons in Hnd as [Hgl Hnd].
  specialize (IH Hdesc Hshape Hnd).
  destruct Hg as [Hg|Hg].
  - (* a zero flag: every flag behind it is below zero *)
    exfalso. apply Hr, no_bits_zero. intros n Hn.
    destruct (Z.testbit r n) eqn:E; [|done].
    pose proof (Z.pow_pos_nonneg 2 n ltac:(lia) Hn) as Hpos.
    destruct (Hcov n Hn E) as (f & Hf & Hv).
    inversion Hf; subst; [lia|].
    rewrite Forall_forall in Hge. specialize (Hge f ltac:(done)). lia.
  - destruct (isPowerOfTwo_exp _ Hg) as (k & Hk0 & Hk).
    (* the flags behind [g] are zero or another power of two *)
    assert (Hrest : forall f, f ∈ l ->
              Value f = 0
              \/ exists j, 0 <= j /\ j <> k /\ Value f = 2 ^ j).
    { intros f Hf. rewrite Forall_forall in Hshape.
      destruct (Hshape f Hf) as [?|Hp]; [by left|right].
      destruct (isPowerOfTwo_exp _ Hp) as (j & Hj0 & Hj).
      exists j. repeat apply conj; try done.
      intros ->. apply Hgl. apply list_elem_of_fmap. exists f.
      split; [congruence | done]. }
    cbn [decompose_loop List.filter]. unfold contained at 1.
    rewrite Hk, (pow2_nonzero k Hk0). cbn [negb andb].
    destruct (Z.testbit r k) eqn:Ebit.
    + rewrite (land_pow2_bit r k Hk0 Ebit), Z.eqb_refl.
      destruct (Z.land r (Z.lnot (2 ^ k)) =? 0) eqn:Ez.
      * apply Z.eqb_eq in Ez. f_equal; [done|]. f_equal.
        apply eq_sym. f_equal.
        apply filter_none, Forall_forall. intros f Hf. unfold contained.
        destruct (Hrest f Hf) as [->|(j & Hj0 & Hjk & ->)]; [done|].
        rewrite (pow2_nonzero j Hj0). cbn [negb andb].
        apply pow2_land_ne; [done|].
        apply (f_equal (fun z => Z.testbit z j)) in Ez. cbv beta in Ez.
        rewrite Z.land_spec, Z.lnot_spec, Z.bits_0,
          Z.pow2_bits_false in Ez by done.
        by rewrite andb_true_r in Ez.
      * rewrite IH.
        -- rewrite <- app_assoc. cbn [app]. f_equal. f_equal. f_equal.
           apply List.filter_ext_in. intros f Hf.
           apply list_elem_of_In in Hf. unfold contained.
           destruct (Hrest f Hf) as [->|(j & Hj0 & Hjk & ->)]; [done|].
           f_equal.
           destruct (Z.testbit r j) eqn:Eb.
           ++ rewrite !land_pow2_bit; try done.
              rewrite Z.land_spec, Z.lnot_spec, Eb, Z.pow2_bits_false by done.
              done.
           ++ rewrite !pow2_land_ne; try done.
              by rewrite Z.land_spec, Eb.
        -- by apply Z.eqb_neq.
        -- intros n Hn Hbit.
           rewrite Z.land_spec, Z.lnot_spec in Hbit by assumption.
           apply andb_true_iff in Hbit as [Hrn Hgn].
           destruct (Hcov n Hn Hrn) as (f & Hf & Hv).
           inversion Hf; subst; [|by exists f].
           assert (n = k) as -> by (apply pow2_inj; congruence).
           rewrite Z.pow2_bits_true in Hgn by assumption.
           discriminate.
    + rewrite (pow2_land_ne r k Hk0 Ebit).
      rewrite (proj2 (Z.eqb_neq r 0) Hr).
      apply IH; [done|]. intros n Hn Hbit.
      destruct (Hcov n Hn Hbit) as (f & Hf & Hv).
      inversion Hf; subst; [|by exists f].
      assert (n = k) as -> by (apply pow2_inj; congruence).
      congruence.
Qed.

End flag_bit_patterns.

Section flag_values.
Context `{StdSort}.
Import SmartFlagEnum.

Lemma TryFromValue_result_sound s v :
  flag_registry_ok s ->
  fst (TryFromValue_result v s) = true ->
  Forall (fun f => f ∈ instances s) (snd (TryFromValue_result v s))
  /\ union_of (snd (TryFromValue_result v s)) = v
  /\ disjoint_values (snd (TryFromValue_result v s)).
Proof.
  intros Hok. unfold TryFromValue_result.
  rewrite (flag_lookup_value s v Hok).
  destruct (first_with_value v (instances s)) as [y|] eqn:Ey.
  - cbn [fst snd]. intros _. apply first_with_value_Some in Ey as [Hy Hv].
    repeat apply conj.
    + by constructor.
    + rewrite union_of_cons. change (union_of []) with 0.
      by rewrite Z.lor_0_r.
    + repeat constructor.
  - destruct (v <? 0); [discriminate|].
    destruct (fits v (instances s)); [|discriminate].
    cbn [fst snd].
    destruct (decompose_loop_sound
                (std_sort value_greater (instances s)) v [])
      as (new & Hsnd & Hsub & Hdis & _ & Hv & _).
    intros Ez. apply Z.eqb_eq in Ez. rewrite Hsnd. cbn [app].
    repeat apply conj.
    + apply Forall_forall. intros f Hf.
      eapply std_sort_elem_of, elem_of_sublist; eauto.
    + rewrite Ez, Z.lor_0_l in Hv. done.
    + done.
Qed.

(** X9.  Whenever [FromValue] of src/SmartFlagEnum.hpp returns, the flags
    it returns are registered instances, the bitwise OR of their values is
    the value asked for, and no two of them share a bit. *)
Theorem returned_flags_make_up_the_value T s0 b v out s' :
  flag_initialise T = Ok tt s0 ->
  FromValue v (set_validated b s0) = Ok out s' ->
  Forall (fun f => f ∈ instances s0) out
  /\ union_of out = v
  /\ disjoint_values out.
Proof.
  intros Hinit. destruct (flag_initialise_ok T s0 Hinit) as (Hok & _ & _).
  rewrite FromValue_ok.
  destruct (fst (TryFromValue_result v (set_validated b s0))) eqn:E;
    [|discriminate].
  intros [= <- _].
  apply (TryFromValue_result_sound (set_validated b s0) v); [|done].
  by destruct Hok.
Qed.


Lemma fits_member (f : Inst) (l : list Inst) :
  f ∈ l -> fits (Value f) l = true.
Proof.
  intros Hf. unfold fits. apply Z.eqb_eq, Z.bits_inj'. intros n Hn.
  rewrite Z.land_spec, Z.lnot_spec, Z.bits_0 by assumption.
  destruct (Z.testbit (Value f) n) eqn:E; [|done].
  assert (Hu : Z.testbit (union_of l) n = true)
    by (apply union_of_bit; eauto).
  by rewrite Hu.
Qed.

Lemma filter_singleton {A} (p : A -> bool) (l : list A) (x : A) :
  NoDup l -> x ∈ l -> (forall y, y ∈ l -> p y = true <-> y = x) ->
  List.filter p l = [x].
Proof.
  induction l as [|a l IH]; intros Hnd Hx Hp; [by inversion Hx|].
  apply NoDup_cons in Hnd as [Ha Hnd]. cbn [List.filter].
  destruct (p a) eqn:Epa.
  - assert (a = x) as -> by (apply Hp; [left | done]).
    f_equal. apply filter_none, Forall_forall. intros y Hy.
    destruct (p y) eqn:Epy; [|done].
    assert (y = x) as -> by (apply Hp; [by right | done]). done.
  - apply elem_of_cons in Hx as [->|Hx].
    + assert (p a = true) by (apply Hp; [left | done]). congruence.
    + apply IH; try done. intros y Hy. apply Hp. by right.
Qed.

Lemma NoDup_of_values (l : list Inst) : NoDup (map Value l) -> NoDup l.
Proof. apply NoDup_fmap_1. Qed.

(** A flag contained in a power of two is a flag of that value. *)
Lemma contained_pow2 (k : Z) (f : Inst) :
  0 <= k ->
  Value f = 0 \/ isPowerOfTwo (Value f) = true ->
  contained (2 ^ k) f = true -> Value f = 2 ^ k.
Proof.
  intros Hk Hf Hc. unfold contained in Hc.
  apply andb_true_iff in Hc as [Hnz Hc].
  apply negb_true_iff, Z.eqb_neq in Hnz. apply Z.eqb_eq in Hc.
  destruct Hf as [?|Hp]; [done|].
  destruct (isPowerOfTwo_exp _ Hp) as (j & Hj0 & Hj). rewrite Hj in Hc |- *.
  apply (f_equal (fun z => Z.testbit z j)) in Hc. cbv beta in Hc.
  rewrite Z.land_spec, (Z.pow2_bits_true j), andb_true_r,
    Z.pow2_bits_eqb in Hc by done.
  apply Z.eqb_eq in Hc. by rewrite Hc.
Qed.

Lemma TryFromValue_result_exact s v :
  flag_registry_ok s ->
  Forall (fun f => Value f = 0 \/ isPowerOfTwo (Value f) = true)
    (instances s) ->
  NoDup (map Value (instances s)) ->
  v <> 0 ->
  TryFromValue_result v s
  = if fits v (instances s)
    then (true, List.filter (contained v)
                  (std_sort value_greater (instances s)))
    else (false, []).
Proof.
  intros Hok Hshape Hnd Hv.
  set (sorted := std_sort value_greater (instances s)).
  assert (Hperm : Permutation sorted (instances s)) by apply std_sort_perm.
  assert (Hshape' : Forall (fun f => Value f = 0 \/ isPowerOfTwo (Value f) = true)
                      sorted) by (by rewrite Hperm).
  assert (Hnd' : NoDup (map Value sorted)) by (by rewrite Hperm).
  unfold TryFromValue_result.
  rewrite (flag_lookup_value s v Hok).
  destruct (first_with_value v (instances s)) as [y|] eqn:Ey.
  - apply first_with_value_Some in Ey as [Hy <-].
    rewrite (fits_member y _ Hy). f_equal.
    assert (Hp : isPowerOfTwo (Value y) = true).
    { rewrite Forall_forall in Hshape. by destruct (Hshape y Hy). }
    destruct (isPowerOfTwo_exp _ Hp) as (k & Hk0 & Hk).
    apply eq_sym, filter_singleton.
    + by apply NoDup_of_values.
    + by apply std_sort_elem_of.
    + intros f Hf. split.
      * intros Hc. rewrite Hk in Hc.
        apply contained_pow2 in Hc;
          [|done|by rewrite Forall_forall in Hshape'; apply Hshape'].
        apply (NoDup_map_inj Value sorted); try done.
        -- by apply std_sort_elem_of.
        -- congruence.
      * intros ->. unfold contained.
        rewrite Z.land_diag, Z.eqb_refl, (proj2 (Z.eqb_neq _ _) Hv). done.
  - destruct (v <? 0) eqn:Eneg.
    + apply Z.ltb_lt in Eneg.
      destruct (fits v (instances s)) eqn:Efit; [exfalso|done].
      apply fits_nonneg in Efit; [lia|].
      eapply List.Forall_impl; [|exact Hshape]. cbv beta.
      intros f [->|Hp]; [done|].
      unfold isPowerOfTwo in Hp. apply andb_true_iff in Hp as [Hp _].
      apply Z.ltb_lt in Hp. lia.
    + destruct (fits v (instances s)) eqn:Efit; [|done].
      fold sorted. rewrite (decompose_loop_exact sorted); try done.
      * apply std_sort_descending.
      * intros n Hn Hbit.
        destruct (fits_bits v _ Efit n Hn Hbit) as (f & Hf & Hfb).
        exists f. split; [by apply std_sort_elem_of|].
        rewrite Forall_forall in Hshape.
        destruct (Hshape f Hf) as [Hz|Hp].
        -- by rewrite Hz, Z.bits_0 in Hfb.
        -- by apply isPowerOfTwo_bit.
Qed.

Lemma FromValue_exact T s0 b v :
  flag_initialise T = Ok tt s0 ->
  Forall (fun f => Value f = 0 \/ isPowerOfTwo (Value f) = true)
    (instances s0) ->
  NoDup (map Value (instances s0)) ->
  v <> 0 ->
  FromValue v (set_validated b s0)
  = if fits v (instances s0)
    then Ok (List.filter (contained v)
               (std_sort value_greater (instances s0)))
           (set_validated true s0)
    else Throw InvalidFlagEnumValueParseException (set_validated true s0).
Proof.
  intros Hinit Hshape Hnd Hv.
  destruct (flag_initialise_ok T s0 Hinit) as (Hok & _ & _).
  rewrite FromValue_ok.
  rewrite (TryFromValue_result_exact (set_validated b s0) v);
    [|by destruct Hok|done..].
  change (instances (set_validated b s0)) with (instances s0).
  by destruct (fits v (instances s0)).
Qed.

(** X10.  For a flag type whose values are pairwise different and each zero
    or a power of two, and a value other than zero: if the value has a bit
    that no flag has, [FromValue] throws
    [InvalidFlagEnumValueParseException] and [TryFromValue] returns false
    with an empty result; otherwise they return exactly the flags contained
    in the value, in descending order. *)
Theorem single_bit_definitions_FromValue T s0 b v :
  flag_initialise T = Ok tt s0 ->
  Forall (fun f => Value f = 0 \/ isPowerOfTwo (Value f) = true)
    (instances s0) ->
  NoDup (map Value (instances s0)) ->
  v <> 0 ->
  FromValue v (set_validated b s0)
  = (if fits v (instances s0)
     then Ok (List.filter (contained v)
                (std_sort value_greater (instances s0)))
            (set_validated true s0)
     else Throw InvalidFlagEnumValueParseException (set_validated true s0))
  /\ TryFromValue v (set_validated b s0)
     = Ok (if fits v (instances s0)
           then (true, List.filter (contained v)
                         (std_sort value_greater (instances s0)))
           else (false, []))
         (set_validated true s0).
Proof.
  intros Hinit Hshape Hnd Hv. split; [by apply (FromValue_exact T)|].
  destruct (flag_initialise_ok T s0 Hinit) as (Hok & _ & _).
  rewrite TryFromValue_ok.
  rewrite (TryFromValue_result_exact (set_validated b s0) v);
    [done|by destruct Hok|done..].
Qed.

Lemma filter_sublist {A} (p : A -> bool) (l : list A) :
  sublist (List.filter p l) l.
Proof.
  induction l as [|a l IH]; cbn; [constructor|].
  destruct (p a); by constructor.
Qed.

(** X11.  [operator|] and [FromValue] compose: in a flag type whose values
    are pairwise different and each zero or a power of two, the value
    [x | y] of two registered flags [x > y > 0] is read back as [x, y]. *)
Theorem FromValue_of_two_combined_flags T s0 b x y :
  flag_initialise T = Ok tt s0 ->
  Forall (fun f => Value f = 0 \/ isPowerOfTwo (Value f) = true)
    (instances s0) ->
  NoDup (map Value (instances s0)) ->
  x ∈ instances s0 -> y ∈ instances s0 ->
  0 < Value y < Value x ->
  FromValue (operator_or x y) (set_validated b s0)
  = Ok [x; y] (set_validated true s0).
Proof.
  intros Hinit Hshape Hnd Hx Hy Hlt.
  assert (Hshape' := Hshape). rewrite Forall_forall in Hshape'.
  destruct (Hshape' x Hx) as [?|Hpx]; [lia|].
  destruct (Hshape' y Hy) as [?|Hpy]; [lia|].
  destruct (isPowerOfTwo_exp _ Hpx) as (i & Hi0 & Hi).
  destruct (isPowerOfTwo_exp _ Hpy) as (j & Hj0 & Hj).
  assert (Hij : i <> j) by (intros ->; lia).
  assert (Hbits : forall n, 0 <= n ->
            Z.testbit (operator_or x y) n = (i =? n) || (j =? n)).
  { intros n Hn. unfold operator_or.
    by rewrite Z.lor_spec, Hi, Hj, !Z.pow2_bits_eqb. }
  assert (Hnz : operator_or x y <> 0).
  { intros Hz. specialize (Hbits i Hi0).
    rewrite Hz, Z.bits_0, Z.eqb_refl in Hbits. discriminate. }
  rewrite (FromValue_exact T s0 b _ Hinit Hshape Hnd Hnz).
  assert (Hfit : fits (operator_or x y) (instances s0) = true).
  { unfold fits. apply Z.eqb_eq, Z.bits_inj'. intros n Hn.
    rewrite Z.land_spec, Z.lnot_spec, Z.bits_0, Hbits by assumption.
    destruct ((i =? n) || (j =? n)) eqn:E; [|done].
    assert (Hu : Z.testbit (union_of (instances s0)) n = true).
    { apply union_of_bit. apply orb_true_iff in E as [E|E];
        apply Z.eqb_eq in E; subst n.
      - exists x. split; [done|]. by rewrite Hi, Z.pow2_bits_true.
      - exists y. split; [done|]. by rewrite Hj, Z.pow2_bits_true. }
    by rewrite Hu. }
  rewrite Hfit. f_equal.
  set (sorted := std_sort value_greater (instances s0)).
  assert (Hperm : Permutation sorted (instances s0)) by apply std_sort_perm.
  assert (Hnd' : NoDup (map Value sorted)) by (by rewrite Hperm).
  assert (Hmem : forall f, f ∈ List.filter (contained (operator_or x y)) sorted
                           <-> f ∈ [x; y]).
  { intros f. split.
    - intros Hf. apply list_elem_of_In, List.filter_In in Hf as [Hf Hc].
      apply list_elem_of_In, std_sort_elem_of in Hf. unfold contained in Hc.
      apply andb_true_iff in Hc as [Hfz Hc].
      apply negb_true_iff, Z.eqb_neq in Hfz. apply Z.eqb_eq in Hc.
      destruct (Hshape' f Hf) as [?|Hpf]; [done|].
      destruct (isPowerOfTwo_exp _ Hpf) as (k & Hk0 & Hk).
      apply (f_equal (fun z => Z.testbit z k)) in Hc. cbv beta in Hc.
      rewrite Z.land_spec, Hbits, Hk, Z.pow2_bits_true, andb_true_r in Hc
        by done.
      apply orb_true_iff in Hc as [E|E]; apply Z.eqb_eq in E; subst k.
      + assert (f = x) as ->; [|left].
        apply (NoDup_map_inj Value (instances s0)); try done. congruence.
      + assert (f = y) as ->; [|right; left].
        apply (NoDup_map_inj Value (instances s0)); try done. congruence.
    - intros Hf. apply list_elem_of_In, List.filter_In.
      unfold sorted. rewrite <- list_elem_of_In, std_sort_elem_of.
      unfold contained, operator_or.
      apply list_elem_of_In in Hf. destruct Hf as [<-|[<-|[]]].
      + split; [done|]. apply andb_true_iff.
        split; [apply negb_true_iff, Z.eqb_neq; lia|].
        apply Z.eqb_eq, Z.bits_inj'. intros n Hn.
        rewrite Z.land_spec, Z.lor_spec.
        by destruct (Z.testbit (Value x) n), (Z.testbit (Value y) n).
      + split; [done|]. apply andb_true_iff.
        split; [apply negb_true_iff, Z.eqb_neq; lia|].
        apply Z.eqb_eq, Z.bits_inj'. intros n Hn.
        rewrite Z.land_spec, Z.lor_spec.
        by destruct (Z.testbit (Value x) n), (Z.testbit (Value y) n). }
  apply (StronglySorted_unique_strong (fun a b => Value a >= Value b)).
  - intros a a' Ha Ha' Hge Hge'. apply Hmem in Ha'.
    apply (NoDup_map_inj Value sorted); try done.
    + eapply elem_of_sublist; [exact Ha | apply filter_sublist].
    + eapply elem_of_sublist; [exact Ha' | apply filter_sublist].
    + lia.
  - eapply StronglySorted_sublist; [apply filter_sublist|].
    apply std_sort_descending.
  - repeat constructor. lia.
  - apply NoDup_Permutation.
    + eapply sublist_NoDup; [|apply filter_sublist].
      apply NoDup_of_values, Hnd'.
    + apply NoDup_cons. split; [|apply NoDup_singleton].
      intros Hxy. apply list_elem_of_singleton in Hxy. subst. lia.
    + exact Hmem.
Qed.

End flag_values.

(** ** src/SmartFlagEnum.hpp: parsing names *)

Section name_parsing.
Import SmartFlagEnum.

Lemma substring_all (s : string) (m : nat) :
  (String.length s <= m)%nat -> substring 0 m s = s.
Proof.
  revert m. induction s as [|c s IH]; intros [|m] Hm; cbn in *; try done.
  - lia.
  - f_equal. apply IH. lia.
Qed.

Lemma substring_to_end (s : string) (n m : nat) :
  (String.length s - n <= m)%nat -> substring n m s = str_drop n s.
Proof.
  revert n m. induction s as [|c s IH]; intros [|n] m Hm; cbn in *.
  - by destruct m.
  - done.
  - destruct m; [lia|]. f_equal. apply substring_all. lia.
  - apply IH. lia.
Qed.

Lemma find_split (names : string) :
  forall start,
    match str_find "," names start with
    | None =>
        split_commas (str_drop start names) = [str_drop start names]
    | Some e =>
        (start <= e < String.length names)%nat
        /\ split_commas (str_drop start names)
           = substring start (e - start) names
               :: split_commas (str_drop (S e) names)
    end.
Proof.
  induction names as [|a s IH]; intros start; cbn [str_find].
  - by destruct start.
  - destruct start as [|p].
    + destruct (Ascii.eqb_spec a ",") as [->|Hne].
      * cbn. split; [lia | done].
      * specialize (IH O). destruct (str_find "," s 0) as [e|]; cbn.
        -- destruct IH as [He IH]. split; [lia|].
           apply Ascii.eqb_neq in Hne. rewrite Hne.
           change (str_drop 0 s) with s in IH. rewrite IH.
           by rewrite Nat.sub_0_r.
        -- apply Ascii.eqb_neq in Hne. rewrite Hne.
           change (str_drop 0 s) with s in IH. by rewrite IH.
    + specialize (IH p). destruct (str_find "," s p) as [e|]; cbn.
      * destruct IH as [He IH]. split; [cbn; lia|]. exact IH.
      * exact IH.
Qed.


Lemma find_by_name_ok s (ignoreCase : bool) part :
  (if ignoreCase then findByNameCaseInsensitive part else findByName part) s
  = Ok (name_lookup s ignoreCase part) s.
Proof. by destruct ignoreCase. Qed.

Lemma tokens_cons part parts :
  List.filter (fun part => negb (empty part)) (map trim (part :: parts))
  = if negb (empty (trim part))
    then trim part
           :: List.filter (fun part => negb (empty part)) (map trim parts)
    else List.filter (fun part => negb (empty part)) (map trim parts).
Proof. done. Qed.

(** The loop, given enough fuel, resolves the tokens behind [start]. *)
Lemma TryFromName_loop_ok (fuel : nat) :
  forall names ignoreCase start outResult s,
    (String.length names - start < fuel)%nat ->
    TryFromName_loop fuel names ignoreCase start outResult s
    = Ok (Some (resolve (name_lookup s ignoreCase)
                  (tokens (str_drop start names)) outResult)) s.
Proof.
  induction fuel as [|fuel IH]; intros names ic start out s Hfuel; [lia|].
  cbn [TryFromName_loop]. unfold tokens.
  pose proof (find_split names start) as Hsplit.
  destruct (str_find "," names start) as [e|].
  - destruct Hsplit as [He ->]. rewrite tokens_cons. unfold substr.
    destruct (empty (trim (substring start (e - start) names))) eqn:Ee;
      cbn [negb].
    + rewrite Nat.add_1_r. apply IH. lia.
    + unfold bind. rewrite find_by_name_ok. cbn [resolve].
      destruct (name_lookup s ic _); [|done].
      rewrite Nat.add_1_r. apply IH. lia.
  - rewrite Hsplit, tokens_cons. unfold substr.
    rewrite (substring_to_end names start) by lia.
    destruct (empty (trim (str_drop start names))) eqn:Ee; cbn [negb].
    + done.
    + unfold bind. rewrite find_by_name_ok. cbn [resolve map List.filter].
      by destruct (name_lookup s ic _).
Qed.

(** The fuel [TryFromName] gives its loop is enough. *)
Lemma TryFromName_loop_fuel names ignoreCase s :
  exists r,
    TryFromName_loop (S (String.length names)) names ignoreCase 0 [] s
    = Ok (Some r) s.
Proof. eexists. apply TryFromName_loop_ok. lia. Qed.

Lemma TryFromName_ok names ignoreCase s :
  TryFromName names ignoreCase s
  = Ok (resolve (name_lookup s ignoreCase) (tokens names) []) s.
Proof.
  unfold TryFromName. destruct names as [|c names]; [done|].
  cbn [empty]. unfold bind. rewrite TryFromName_loop_ok by lia. done.
Qed.


Lemma split_commas_nonempty (s : string) : split_commas s <> [].
Proof.
  destruct s as [|c s]; [done|]. cbn.
  destruct (Ascii.eqb c ","); [done|]. by destruct (split_commas s).
Qed.

(** Splitting at the commas loses nothing. *)
Lemma split_commas_concat (s : string) :
  String.concat "," (split_commas s) = s.
Proof.
  induction s as [|c s IH]; [done|]. cbn [split_commas].
  pose proof (split_commas_nonempty s).
  destruct (Ascii.eqb_spec c ",") as [->|Hne];
    destruct (split_commas s) as [|part [|p2 parts]]; try done;
    rewrite <- IH; reflexivity.
Qed.

Lemma resolve_ext lookup lookup' tokens :
  (forall t, lookup t = lookup' t) ->
  forall out, resolve lookup tokens out = resolve lookup' tokens out.
Proof.
  intros Hext. induction tokens as [|t ts IH]; intros out; cbn; [done|].
  rewrite Hext. destruct (lookup' t); [apply IH | done].
Qed.

Lemma name_lookup_registry s b ignoreCase part :
  flag_registry_ok s ->
  name_lookup (set_validated b s) ignoreCase part
  = first_matching_name part ignoreCase (instances s).
Proof.
  intros Hok. unfold name_lookup, first_matching_name, first_with_name.
  destruct ignoreCase; cbn [set_validated nameMap nameMapIgnoreCase].
  - apply (flag_ok_lower _ Hok).
  - apply (flag_ok_name _ Hok).
Qed.

Lemma flag_registerInstance_fresh i s s' :
  registerInstance i s = Ok tt s' -> nameMap s !! Name i = None.
Proof.
  unfold registerInstance. run_monad.
  destruct (count (nameMap s) (Name i)) eqn:E; [discriminate|].
  intros _. by apply count_false.
Qed.

Lemma flag_construct_all_names (defs : list (string * Z)) :
  forall s s',
    flag_registry_ok s ->
    NoDup (map Name (instances s)) ->
    Forall (fun x => empty (Name x) = false) (instances s) ->
    construct_all SmartFlagEnum defs s = Ok tt s' ->
    NoDup (map Name (instances s'))
    /\ Forall (fun x => empty (Name x) = false) (instances s').
Proof.
  induction defs as [|[name value] defs IH]; intros s s' Hok Hnd Hne.
  - cbn [construct_all]. unfold ret. by intros [= <-].
  - cbn [construct_all]. unfold bind at 1.
    destruct (SmartFlagEnum name value s) as [[] s1|] eqn:E1; [|discriminate].
    intros Hrest. unfold SmartFlagEnum in E1.
    destruct (empty name) eqn:He; [discriminate|].
    destruct (flag_registerInstance_ok _ _ _ Hok E1) as (Hok1 & Hi1 & _).
    apply (IH _ _ Hok1); [| |done].
    + rewrite Hi1, map_app. cbn [map].
      apply NoDup_app. split; [done|]. split; [|apply NoDup_singleton].
      intros n Hn Hn'. apply list_elem_of_singleton in Hn'. subst n.
      apply flag_registerInstance_fresh in E1.
      rewrite (flag_ok_name _ Hok) in E1.
      by apply first_with_name_None in E1.
    + rewrite Hi1. apply Forall_app. split; [done|]. by constructor.
Qed.

Lemma flag_initialise_names T s :
  flag_initialise T = Ok tt s ->
  NoDup (map Name (instances s))
  /\ Forall (fun x => empty (Name x) = false) (instances s).
Proof.
  intros Hinit.
  apply (flag_construct_all_names (definitions T) initial s);
    [apply flag_registry_initial | constructor | constructor | done].
Qed.

End name_parsing.

Section flag_names.
Context `{StdSort}.
Import SmartFlagEnum.

Lemma FromName_ok names ignoreCase s :
  FromName names ignoreCase s
  = if fst (resolve (name_lookup s ignoreCase) (tokens names) [])
    then Ok (snd (resolve (name_lookup s ignoreCase) (tokens names) [])) s
    else Throw InvalidFlagEnumValueParseException s.
Proof.
  unfold FromName, bind. rewrite TryFromName_ok.
  by destruct (fst _).
Qed.

(** X12.  [TryFromName] of src/SmartFlagEnum.hpp splits the string at its
    commas, strips blanks and tabs off both ends of each part, skips the
    parts left empty and looks the others up in order, by name or by
    lower-cased name: the answer for each is the first registered instance
    that matches.  The first unknown name ends the call with false, the
    flags found before it left in the result; [FromName] then throws
    [InvalidFlagEnumValueParseException].  Neither function throws
    otherwise, validates or changes the statics. *)
Theorem flag_TryFromName_resolves_tokens T s0 b names ignoreCase :
  flag_initialise T = Ok tt s0 ->
  let s := set_validated b s0 in
  let r := resolve (fun token =>
                      first_matching_name token ignoreCase (instances s0))
             (tokens names) [] in
  TryFromName names ignoreCase s = Ok r s
  /\ FromName names ignoreCase s
     = (if fst r then Ok (snd r) s
        else Throw InvalidFlagEnumValueParseException s).
Proof.
  intros Hinit s r. destruct (flag_initialise_ok T s0 Hinit) as (Hok & _ & _).
  assert (Hr : resolve (name_lookup s ignoreCase) (tokens names) [] = r).
  { apply resolve_ext. intros t. by apply name_lookup_registry. }
  by rewrite TryFromName_ok, FromName_ok, Hr.
Qed.

Lemma split_commas_plain (a : string) :
  str_find "," a 0 = None -> split_commas a = [a].
Proof.
  induction a as [|c a IH]; [done|]. cbn.
  destruct (Ascii.eqb c ","); [done|].
  destruct (str_find "," a 0); [done|]. intros _. by rewrite IH.
Qed.

Lemma split_commas_app (a b : string) :
  str_find "," a 0 = None ->
  split_commas (a ++ String "," b)%string = a :: split_commas b.
Proof.
  induction a as [|c a IH]; [done|]. cbn [str_find].
  change (String c a ++ String "," b)%string
    with (String c (a ++ String "," b)%string).
  cbn [split_commas].
  destruct (Ascii.eqb c ","); [done|].
  destruct (str_find "," a 0); [done|]. intros _. by rewrite IH.
Qed.

Lemma plain_name_nonempty n : plain_name n -> empty n = false.
Proof. intros (_ & Hf & _). by destruct n. Qed.

Lemma trim_plain n : plain_name n -> trim n = n.
Proof.
  intros (_ & Hf & Hl). unfold trim. rewrite Hf.
  assert (He : erase n 0 (Some O) = n).
  { unfold erase. cbn [Nat.add].
    rewrite (substring_all n (String.length n)) by lia. by destruct n. }
  rewrite He, Hl. unfold succ_pos, erase.
  apply substring_all. lia.
Qed.

Lemma trim_blank_plain n : plain_name n -> trim (String " " n) = n.
Proof.
  intros (_ & Hf & Hl). unfold trim. cbn [find_first_not_of].
  change (holds blanks " ") with true. cbv iota. rewrite Hf.
  assert (He : erase (String " " n) 0 (option_map S (Some O)) = n).
  { unfold erase. cbn [option_map Nat.add String.length substring].
    change (String.append EmptyString ?x) with x.
    apply substring_all. lia. }
  rewrite He, Hl. unfold succ_pos, erase.
  apply substring_all. lia.
Qed.

Lemma tokens_concat (ns : list string) :
  Forall plain_name ns ->
  tokens (String.concat ", " ns) = ns
  /\ (ns <> [] -> tokens (String " " (String.concat ", " ns)) = ns).
Proof.
  induction 1 as [|n ns Hn Hns [IH1 IH2]]; [done|].
  assert (Hc : str_find "," n 0 = None) by apply Hn.
  assert (Hc' : str_find "," (String " " n) 0 = None)
    by (cbn; by rewrite Hc).
  destruct ns as [|n2 rest].
  - cbn [String.concat]. unfold tokens.
    rewrite (split_commas_plain _ Hc), (split_commas_plain _ Hc').
    rewrite !tokens_cons, trim_plain, trim_blank_plain by done.
    by rewrite (plain_name_nonempty n Hn).
  - specialize (IH2 ltac:(done)).
    change (String.concat ", " (n :: n2 :: rest))
      with (n ++ String "," (String " " (String.concat ", " (n2 :: rest))))%string.
    change (String " " (n ++ ?x)%string) with (String " " n ++ x)%string.
    unfold tokens in *.
    rewrite (split_commas_app _ _ Hc), (split_commas_app _ _ Hc').
    rewrite !tokens_cons, trim_plain, trim_blank_plain by done.
    rewrite (plain_name_nonempty n Hn), IH2. done.
Qed.

Lemma resolve_names lookup (out : list Inst) :
  (forall x, x ∈ out -> lookup (Name x) = Some x) ->
  forall acc, resolve lookup (map Name out) acc = (true, acc ++ out).
Proof.
  induction out as [|x out IH]; intros Hl acc; cbn.
  - by rewrite app_nil_r.
  - rewrite (Hl x) by left. rewrite IH, <- app_assoc; [done|].
    intros y Hy. apply Hl. by right.
Qed.


(** X13.  Round trip through the names: if no registered name holds a comma
    or starts or ends with a blank or a tab, the string
    [FromValueToString(v)] returns is read back by [FromName] as the very
    list of flags [FromValue(v)] returns. *)
Theorem flag_names_round_trip T s0 b v str s' :
  flag_initialise T = Ok tt s0 ->
  Forall (fun f => plain_name (Name f)) (instances s0) ->
  FromValueToString v (set_validated b s0) = Ok str s' ->
  exists out,
    FromValue v (set_validated b s0) = Ok out s'
    /\ FromName str false s' = Ok out s'.
Proof.
  intros Hinit Hplain.
  destruct (flag_initialise_ok T s0 Hinit) as (Hok & _ & _).
  destruct (flag_initialise_names T s0 Hinit) as [Hnd _].
  rewrite FromValueToString_ok, FromValue_ok.
  destruct (fst (TryFromValue_result v (set_validated b s0))) eqn:E;
    [|discriminate].
  intros [= <- <-]. eexists. split; [reflexivity|].
  set (out := snd (TryFromValue_result v (set_validated b s0))).
  assert (Hreg : Forall (fun f => f ∈ instances s0) out).
  { apply (TryFromValue_result_sound (set_validated b s0) v); [|done].
    by destruct Hok. }
  rewrite FromName_ok, join_loop_concat.
  assert (Htok : tokens (String.concat ", " (map Name out)) = map Name out).
  { apply tokens_concat. apply Forall_fmap.
    eapply List.Forall_impl; [|exact Hreg]. cbv beta. intros f Hf.
    rewrite Forall_forall in Hplain. by apply Hplain. }
  rewrite Htok, resolve_names; [done|].
  intros x Hx. unfold name_lookup.
  change (nameMap (set_validated true (set_validated b s0)))
    with (nameMap s0).
  rewrite (flag_ok_name _ Hok). apply first_with_name_self; [done|].
  rewrite Forall_forall in Hreg. by apply Hreg.
Qed.


(** X4.  In all three headers the instances of a type whose constructions
    succeeded carry pairwise different, non-empty names. *)
Theorem registered_names_are_unique_and_not_empty :
  (forall l s,
     enum_history l s ->
     NoDup (map Name (enum_instances s))
     /\ Forall (fun x => empty (Name x) = false) (enum_instances s))
  /\ (forall l s,
        include_history l s ->
        NoDup (map Name (enum_instances s))
        /\ Forall (fun x => empty (Name x) = false) (enum_instances s))
  /\ (forall T s,
        flag_initialise T = Ok tt s ->
        NoDup (map Name (instances s))
        /\ Forall (fun x => empty (Name x) = false) (instances s)).
Proof.
  repeat apply conj.
  - intros l s Hh. destruct (enum_history_ok _ _ Hh) as [Hok ->].
    split; [apply (enum_ok_names _ _ Hok) | apply (enum_ok_nonempty _ _ Hok)].
  - intros l s Hh. pose proof (include_history_ok _ _ Hh) as Hok.
    rewrite (enum_ok_instances _ _ Hok).
    split; [apply (enum_ok_names _ _ Hok) | apply (enum_ok_nonempty _ _ Hok)].
  - intros T s. apply flag_initialise_names.
Qed.

End flag_names.

(** ** src/SmartEnumSwitch.hpp, construction of flags, and the range of [int] *)

Section switch.
Import SmartEnumSwitch.
Context {W : Type}.

Lemma chain_app (v : Inst) (calls calls' : list (call W)) (w : W) :
  chain v (calls ++ calls') w = fold_left do_call calls' (chain v calls w).
Proof. unfold chain. apply fold_left_app. Qed.

Lemma cases_cons (ca : Inst * (W -> W)) (l : list (Inst * (W -> W))) :
  cases (ca :: l) = call_When (fst ca) :: call_Then (snd ca) :: cases l.
Proof. done. Qed.

(** Once a case was handled, no later call changes anything but
    [lastMatch_], which every [Then] leaves cleared. *)
Lemma cases_from (l : list (Inst * (W -> W))) :
  forall b w,
    lastMatch_ b = false ->
    fold_left do_call (cases l) (b, w)
    = if handled_ b then (b, w)
      else match find (fun ca => equals (value_ b) (fst ca)) l with
           | Some ca => (mkBuilder (value_ b) true false, snd ca w)
           | None => (b, w)
           end.
Proof.
  induction l as [|[c a] l IH]; intros [v h m] w Hm; cbn in Hm; subst m.
  - cbn. by destruct h.
  - rewrite cases_cons. cbn [fold_left do_call fst snd find].
    unfold When, Then. cbn [handled_ value_ lastMatch_].
    destruct h, (equals v c); cbn -[cases fold_left equals];
      rewrite IH by done; done.
Qed.

(** X15.  [SwitchOn(v).When(c1).Then(a1) ... .When(cn).Then(an).Default(d)]
    runs the action of the first case whose candidate has the value of [v],
    and only that one; it runs [d] if no candidate has it. *)
Theorem switch_runs_first_matching_case (v : Inst)
  (l : list (Inst * (W -> W))) (d : W -> W) (w : W) :
  Default d (chain v (cases l) w)
  = match find (fun ca => equals v (fst ca)) l with
    | Some ca => snd ca w
    | None => d w
    end.
Proof.
  unfold chain. rewrite cases_from by done. cbn.
  by destruct (find _ l).
Qed.

(** X16.  Whatever calls of [When] and [Then] a switch chains, in whatever
    order, [Default(d)] at its end leaves the program as exactly one action
    leaves it: [d], or one of the actions given to a [Then]; no two actions
    ever run. *)
Theorem switch_runs_exactly_one_action (v : Inst) (calls : list (call W))
  (d : W -> W) (w : W) :
  Default d (chain v calls w) = d w
  \/ exists a, call_Then a ∈ calls /\ Default d (chain v calls w) = a w.
Proof.
  assert (Hinv :
    (handled_ (fst (chain v calls w)) = false /\ snd (chain v calls w) = w)
    \/ (handled_ (fst (chain v calls w)) = true
        /\ exists a, call_Then a ∈ calls /\ snd (chain v calls w) = a w)).
  { induction calls as [|c calls IH] using rev_ind; [by left|].
    rewrite chain_app. cbn [fold_left].
    destruct (chain v calls w) as [[v' h m] w'].
    cbn [fst snd handled_] in IH.
    destruct c as [candidate|action]; cbn [do_call fst snd].
    - unfold When. cbn [handled_ value_].
      destruct IH as [[-> ->]|(-> & a & Ha & ->)].
      + left. by destruct (_ && _).
      + right. cbn. split; [done|]. exists a.
        split; [|done]. apply elem_of_app. by left.
    - unfold Then. cbn [handled_ value_ lastMatch_].
      destruct IH as [[-> ->]|(-> & a & Ha & ->)]; cbn [negb andb].
      + destruct m; [right|by left]. cbn. split; [done|].
        exists action. split; [|done]. apply elem_of_app. right. by left.
      + right. cbn. split; [done|]. exists a.
        split; [|done]. apply elem_of_app. by left. }
  unfold Default. destruct (chain v calls w) as [b w']. cbn [fst snd] in Hinv.
  destruct Hinv as [[-> ->]|(-> & a & Ha & ->)]; cbn [negb]; [by left|].
  right. by exists a.
Qed.

End switch.

Section flag_construction.
Context `{StdSort}.
Import SmartFlagEnum.

Lemma flag_registerInstance_runs i s :
  nameMap s !! Name i = None ->
  exists s', registerInstance i s = Ok tt s'.
Proof.
  intros Hn. unfold registerInstance. run_monad.
  unfold count. rewrite Hn.
  cbn [instances nameMap nameMapIgnoreCase valueMap definitionsValidated].
  destruct (nameMapIgnoreCase s !! _); cbn;
    destruct (valueMap s !! _); cbn; eauto.
Qed.

(** X2.  The constructor of src/SmartFlagEnum.hpp on an initialised flag
    type: an empty name throws [std::invalid_argument], a registered name
    throws [std::runtime_error], both without touching the statics; any
    other name is appended to [instances()], the three indices stay
    consistent, and [definitionsValidated] keeps its value: a registration
    after the first query is not validated again. *)
Theorem flag_construction_fails_on_empty_or_duplicate_name T s0 b name value :
  flag_initialise T = Ok tt s0 ->
  let s := set_validated b s0 in
  (empty name = true ->
   SmartFlagEnum name value s = Throw invalid_argument s)
  /\ (empty name = false -> name ∈ map Name (instances s0) ->
      SmartFlagEnum name value s = Throw (runtime_error name) s)
  /\ (empty name = false -> name ∉ map Name (instances s0) ->
      exists s',
        SmartFlagEnum name value s = Ok tt s'
        /\ instances s' = instances s0 ++ [mkInst name value]
        /\ definitionsValidated s' = b
        /\ flag_registry_ok s').
Proof.
  intros Hinit s. destruct (flag_initialise_ok T s0 Hinit) as (Hok & _ & _).
  assert (Hoks : flag_registry_ok s) by (by destruct Hok).
  repeat apply conj.
  - intros He. unfold SmartFlagEnum. by rewrite He.
  - intros He Hin. unfold SmartFlagEnum. rewrite He.
    destruct (registerInstance (mkInst name value) s) as [[] s'|e s'] eqn:E.
    + apply flag_registerInstance_fresh in E. cbn [Name] in E.
      rewrite (flag_ok_name _ Hoks) in E.
      by apply first_with_name_None in E.
    + apply flag_registerInstance_throw in E. by destruct E as (-> & -> & _).
  - intros He Hnin. unfold SmartFlagEnum. rewrite He.
    destruct (flag_registerInstance_runs (mkInst name value) s) as [s' Hs'].
    { cbn [Name]. rewrite (flag_ok_name _ Hoks).
      destruct (find _ _) eqn:E; [|done].
      apply first_with_name_Some in E. destruct E as [Hin <-].
      exfalso. apply Hnin. apply list_elem_of_fmap. eauto. }
    exists s'. split; [done|].
    destruct (flag_registerInstance_ok _ _ _ Hoks Hs') as (Hok' & Hi & Hd).
    by repeat apply conj.
Qed.

(** X14.  No operation of the decomposition leaves the range of [int] when
    the declared values and the input are in it: the union of the values,
    the coverage test, every remainder of the greedy loop, [operator|] and
    the guarded [v - 1] of [isPowerOfTwo]. *)
Theorem flag_arithmetic_stays_in_int (l : list Inst) (v : Z) :
  Forall (fun f => in_int (Value f)) l ->
  in_int v ->
  in_int (union_of l)
  /\ in_int (Z.land v (Z.lnot (union_of l)))
  /\ (forall out, in_int (fst (decompose_loop l v out)))
  /\ (forall a b, a ∈ l -> b ∈ l -> in_int (operator_or a b))
  /\ (0 < v -> in_int (v - 1)).
Proof.
  intros Hl Hv.
  assert (Hu : forall acc, in_int acc ->
            in_int (fold_left (fun a i => Z.lor a (Value i)) l acc)).
  { clear Hv. induction Hl as [|f l Hf _ IH]; intros acc Hacc; [done|].
    cbn [fold_left]. apply IH. by apply in_int_lor. }
  assert (H0 : in_int 0) by (unfold in_int; lia).
  split; [|split; [|split; [|split]]].
  - by apply Hu.
  - apply in_int_land; [done|]. apply in_int_lnot. by apply Hu.
  - revert v Hv. clear Hu.
    induction Hl as [|f l Hf _ IH]; intros v Hv out; [done|].
    cbn [decompose_loop].
    destruct (Z.land v (Value f) =? Value f).
    + destruct (_ =? 0) eqn:E; [by apply Z.eqb_eq in E; cbn; rewrite E|].
      apply IH. apply in_int_land; [done|]. by apply in_int_lnot.
    + destruct (v =? 0); [done|]. by apply IH.
  - intros a b Ha Hb. rewrite Forall_forall in Hl.
    apply in_int_lor; by apply Hl.
  - by apply in_int_pred.
Qed.

End flag_construction.

Section inclass_validation.
Context `{StdSort}.

Lemma inclass_collect_unsafe (l : list Inst) :
  forall baseFlags s,
    exists r, SmartFlagEnumInClass.collect_baseFlags true l baseFlags s = Ok r s.
Proof.
  induction l as [|e l IH]; intros baseFlags s; cbn; [by eexists|].
  destruct (_ || _); [apply IH|].
  destruct (SmartFlagEnumInClass.isPowerOfTwo _); apply IH.
Qed.

Lemma inclass_check_unsafe (baseFlags : list Z) :
  forall expected s,
    SmartFlagEnumInClass.check_sequence true baseFlags expected s = Ok tt s.
Proof.
  induction baseFlags as [|f l IH]; intros expected s; cbn; [done|].
  rewrite andb_false_r. apply IH.
Qed.

(** X17.  In the SmartFlagEnum.hpp with in-class definitions a type marked
    [AllowUnsafeFlagEnumValues] passes validation whatever its values are:
    [List()] never throws, returns [instances()], a permutation of the
    registered instances (sorted by value when validation runs), and marks
    the definitions validated. *)
Theorem inclass_unsafe_types_always_validate T s :
  AllowUnsafeFlagEnumValues T = true ->
  exists l s',
    SmartFlagEnumInClass.List T s = Ok l s'
    /\ l = instances s'
    /\ Permutation l (instances s)
    /\ definitionsValidated s' = true
    /\ (definitionsValidated s = false ->
        l = std_sort SmartFlagEnumInClass.value_less (instances s)).
Proof.
  intros Hu. unfold SmartFlagEnumInClass.List,
    SmartFlagEnumInClass.enforceFlagDefinitions. rewrite Hu. run_monad.
  destruct (definitionsValidated s) eqn:Ev.
  - exists (instances s), s. by repeat apply conj.
  - cbv beta. cbn [instances].
    match goal with |- context [SmartFlagEnumInClass.collect_baseFlags true ?l ?b ?s0] =>
      destruct (inclass_collect_unsafe l b s0) as [r ->] end.
    destruct r as [|z r].
    + eexists _, _. split; [reflexivity|]. cbn.
      repeat apply conj; try done. apply std_sort_perm.
    + rewrite inclass_check_unsafe.
      eexists _, _. split; [reflexivity|]. cbn.
      repeat apply conj; try done. apply std_sort_perm.
Qed.

End inclass_validation.

(** ** src/SmartFlagEnum.hpp: sentinels and the order of [List()] *)

Section flag_sentinels.
Context `{StdSort}.
Import SmartFlagEnum.

(** A flag contained in a remainder that is not negative is not negative. *)
Lemma contained_nonneg (r f : Z) : 0 <= r -> Z.land r f = f -> 0 <= f.
Proof.
  intros Hr Hf. rewrite <- Hf. apply Z.land_nonneg. by left.
Qed.

(** Behind the positive flags nothing can empty a remainder. *)
Lemma decompose_loop_stuck (l : list Inst) :
  Forall (fun f => Value f <= 0) l ->
  forall r out, 0 < r -> fst (decompose_loop l r out) <> 0.
Proof.
  induction 1 as [|g l Hg _ IH]; intros r out Hr; cbn [decompose_loop].
  - cbn. lia.
  - destruct (Z.land r (Value g) =? Value g) eqn:Einc.
    + apply Z.eqb_eq in Einc.
      assert (Hg0 : Value g = 0).
      { pose proof (contained_nonneg r (Value g) ltac:(lia) Einc). lia. }
      rewrite Hg0. change (Z.lnot 0) with (-1). rewrite Z.land_m1_r.
      rewrite (proj2 (Z.eqb_neq r 0)) by lia. by apply IH.
    + rewrite (proj2 (Z.eqb_neq r 0)) by lia. by apply IH.
Qed.

Lemma decompose_loop_positive (l : list Inst) :
  descending l ->
  forall r out,
    0 < r ->
    fst (decompose_loop l r out) = 0 ->
    exists new,
      snd (decompose_loop l r out) = out ++ new
      /\ Forall (fun f => 0 < Value f) new.
Proof.
  induction l as [|f l IH]; intros Hdesc r out Hr; cbn [decompose_loop].
  { cbn. lia. }
  apply StronglySorted_inv in Hdesc as [Hdesc Hge].
  destruct (Z.land r (Value f) =? Value f) eqn:Einc.
  - apply Z.eqb_eq in Einc.
    pose proof (contained_nonneg r (Value f) ltac:(lia) Einc) as Hf.
    assert (Hr' : 0 <= Z.land r (Z.lnot (Value f)))
      by (apply Z.land_nonneg; left; lia).
    destruct (Z.eq_dec (Value f) 0) as [Hf0|Hf0].
    + rewrite Hf0. change (Z.lnot 0) with (-1). rewrite Z.land_m1_r.
      rewrite (proj2 (Z.eqb_neq r 0)) by lia. intros Hz. exfalso.
      apply (decompose_loop_stuck l) in Hz; [done| |done].
      eapply List.Forall_impl; [|exact Hge]. cbv beta. intros g Hg. lia.
    + destruct (Z.land r (Z.lnot (Value f)) =? 0) eqn:Ez.
      * intros _. exists [f]. cbn [snd]. split; [done|].
        constructor; [lia | constructor].
      * apply Z.eqb_neq in Ez. intros Hz.
        destruct (IH Hdesc (Z.land r (Z.lnot (Value f))) (out ++ [f])
                    ltac:(lia) Hz) as (new & Hsnd & Hpos).
        exists (f :: new). rewrite Hsnd, <- app_assoc. split; [done|].
        constructor; [lia | done].
  - rewrite (proj2 (Z.eqb_neq r 0)) by lia. by apply IH.
Qed.

Lemma decompose_loop_zero (l : list Inst) :
  Forall (fun f => Value f <> 0) l ->
  forall out, decompose_loop l 0 out = (0, out).
Proof.
  destruct 1 as [|f l Hf _]; intros out; cbn [decompose_loop]; [done|].
  rewrite Z.land_0_l. by rewrite (proj2 (Z.eqb_neq 0 (Value f))) by done.
Qed.

(** X18.  The sentinels never take part in a decomposition: whenever
    [FromValue] of src/SmartFlagEnum.hpp returns, it returns either the one
    instance registered first under the very value asked for, or, if there
    is none, flags of positive value only (no zero flag, no negative
    one). *)
Theorem decomposition_holds_no_sentinel T s0 b v out s' :
  flag_initialise T = Ok tt s0 ->
  FromValue v (set_validated b s0) = Ok out s' ->
  (exists y, out = [y] /\ first_with_value v (instances s0) = Some y)
  \/ (first_with_value v (instances s0) = None
      /\ Forall (fun f => 0 < Value f) out).
Proof.
  intros Hinit. destruct (flag_initialise_ok T s0 Hinit) as (Hok & _ & _).
  rewrite FromValue_ok. unfold TryFromValue_result.
  change (valueMap (set_validated b s0)) with (valueMap s0).
  change (instances (set_validated b s0)) with (instances s0).
  rewrite (flag_lookup_value s0 v Hok).
  destruct (first_with_value v (instances s0)) as [y|] eqn:Ey.
  - cbn. intros [= <- _]. left. by exists y.
  - destruct (v <? 0) eqn:Eneg; [discriminate|]. apply Z.ltb_ge in Eneg.
    destruct (fits v (instances s0)); [|discriminate]. cbn [fst snd].
    set (sorted := std_sort value_greater (instances s0)).
    destruct (fst (decompose_loop sorted v []) =? 0) eqn:Ez; [|discriminate].
    apply Z.eqb_eq in Ez. intros [= <- _]. right. split; [done|].
    destruct (Z.eq_dec v 0) as [->|Hv].
    + rewrite decompose_loop_zero; [constructor|].
      apply first_with_value_None in Ey.
      apply Forall_forall. intros f Hf. apply std_sort_elem_of in Hf.
      rewrite Forall_forall in Ey. by apply Ey.
    + destruct (decompose_loop_positive sorted (std_sort_descending _)
                  v [] ltac:(lia) Ez) as (new & -> & Hpos).
      done.
Qed.

(** X19.  [List()] of src/SmartFlagEnum.hpp returns the instances in the
    order of their definitions, whatever was asked before: the queries by
    value sort a copy of the list, and the queries by name read the indices
    only. *)
Theorem flag_List_keeps_declaration_order T s0 :
  flag_initialise T = Ok tt s0 ->
  (forall b,
     List (set_validated b s0)
     = Ok (map instance_of (definitions T)) (set_validated true s0))
  /\ (forall b v,
        List (state_of (TryFromValue v (set_validated b s0)))
        = Ok (map instance_of (definitions T)) (set_validated true s0)
        /\ List (state_of (FromValue v (set_validated b s0)))
           = Ok (map instance_of (definitions T)) (set_validated true s0)
        /\ List (state_of (FromValueToString v (set_validated b s0)))
           = Ok (map instance_of (definitions T)) (set_validated true s0))
  /\ (forall b names ignoreCase,
        List (state_of (TryFromName names ignoreCase (set_validated b s0)))
        = Ok (map instance_of (definitions T)) (set_validated true s0)
        /\ List (state_of (FromName names ignoreCase (set_validated b s0)))
           = Ok (map instance_of (definitions T)) (set_validated true s0)).
Proof.
  intros Hinit. destruct (flag_initialise_ok T s0 Hinit) as (Hok & Hi & _).
  assert (HL : forall b,
            List (set_validated b s0)
            = Ok (map instance_of (definitions T)) (set_validated true s0)).
  { intros b. rewrite List_ok. cbn [instances set_validated].
    by rewrite Hi. }
  split; [done|]. split.
  - intros b v.
    rewrite TryFromValue_ok, FromValue_ok, FromValueToString_ok.
    destruct (fst _); cbn [state_of]; repeat apply conj; exact (HL true).
  - intros b names ignoreCase. rewrite TryFromName_ok, FromName_ok.
    destruct (fst _); cbn [state_of]; split; exact (HL b).
Qed.

End flag_sentinels.

(** ** The further properties at the types of the repository's tests *)

Section further_examples.

Lemma X1_witness_TestEnum_Four :
  (empty "Four" = true ->
   SmartEnum.SmartEnum "Four" 4 (enum_statics TestEnum)
   = Throw invalid_argument (enum_statics TestEnum))
  /\ (empty "Four" = false ->
      "Four" ∈ map Name [mkInst "One" 1; mkInst "Two" 2; mkInst "Three" 3] ->
      SmartEnum.SmartEnum "Four" 4 (enum_statics TestEnum)
      = Throw (runtime_error "Four") (enum_statics TestEnum))
  /\ (empty "Four" = false ->
      "Four" ∉ map Name [mkInst "One" 1; mkInst "Two" 2; mkInst "Three" 3] ->
      exists s',
        SmartEnum.SmartEnum "Four" 4 (enum_statics TestEnum) = Ok tt s'
        /\ enum_history
             ([mkInst "One" 1; mkInst "Two" 2; mkInst "Three" 3]
              ++ [mkInst "Four" 4]) s'
        /\ SmartEnum.List s'
           = Ok ([mkInst "One" 1; mkInst "Two" 2; mkInst "Three" 3]
                 ++ [mkInst "Four" 4]) s').
Proof.
  exact (construction_fails_on_empty_or_duplicate_name _ _ "Four" 4
           enum_history_TestEnum).
Defined.

Lemma X2_witness_Flags_D :
  (empty "D" = true ->
   SmartFlagEnum.SmartFlagEnum "D" 8 (set_validated true (statics Flags))
   = Throw invalid_argument (set_validated true (statics Flags)))
  /\ (empty "D" = false -> "D" ∈ map Name (instances (statics Flags)) ->
      SmartFlagEnum.SmartFlagEnum "D" 8 (set_validated true (statics Flags))
      = Throw (runtime_error "D") (set_validated true (statics Flags)))
  /\ (empty "D" = false -> "D" ∉ map Name (instances (statics Flags)) ->
      exists s',
        SmartFlagEnum.SmartFlagEnum "D" 8 (set_validated true (statics Flags))
        = Ok tt s'
        /\ instances s' = instances (statics Flags) ++ [mkInst "D" 8]
        /\ definitionsValidated s' = true
        /\ flag_registry_ok s').
Proof.
  refine (flag_construction_fails_on_empty_or_duplicate_name
            Flags (statics Flags) true "D" 8 _).
  vm_compute; reflexivity.
Defined.


Lemma X4_witness_TestEnum :
  NoDup (map Name (enum_instances (enum_statics TestEnum)))
  /\ Forall (fun x => empty (Name x) = false)
       (enum_instances (enum_statics TestEnum)).
Proof.
  exact (proj1 registered_names_are_unique_and_not_empty _ _
           enum_history_TestEnum).
Defined.

Lemma X5_witness_TestEnum_two :
  (exists y,
     first_match (name_matches "two" true)
       [mkInst "One" 1; mkInst "Two" 2; mkInst "Three" 3] y
     /\ SmartEnum.FromName "two" true (enum_statics TestEnum)
        = Ok y (enum_statics TestEnum)
     /\ SmartEnum.TryFromName "two" true (enum_statics TestEnum)
        = Ok (true, Some y) (enum_statics TestEnum))
  \/ (Forall (fun x => ~ name_matches "two" true x)
        [mkInst "One" 1; mkInst "Two" 2; mkInst "Three" 3]
      /\ SmartEnum.FromName "two" true (enum_statics TestEnum)
         = Throw SmartEnumNotFoundException (enum_statics TestEnum)
      /\ SmartEnum.TryFromName "two" true (enum_statics TestEnum)
         = Ok (false, None) (enum_statics TestEnum)).
Proof.
  exact (proj1 FromName_returns_first_match_or_throws _ _ "two" true
           enum_history_TestEnum).
Defined.

Lemma X6_witness_TestEnum_2 :
  (exists y,
     first_match (fun x => Value x = 2)
       [mkInst "One" 1; mkInst "Two" 2; mkInst "Three" 3] y
     /\ SmartEnum.FromValue 2 (enum_statics TestEnum)
        = Ok y (enum_statics TestEnum)
     /\ SmartEnum.TryFromValue 2 (enum_statics TestEnum)
        = Ok (true, Some y) (enum_statics TestEnum))
  \/ (Forall (fun x => Value x <> 2)
        [mkInst "One" 1; mkInst "Two" 2; mkInst "Three" 3]
      /\ SmartEnum.FromValue 2 (enum_statics TestEnum)
         = Throw SmartEnumNotFoundException (enum_statics TestEnum)
      /\ SmartEnum.TryFromValue 2 (enum_statics TestEnum)
         = Ok (false, None) (enum_statics TestEnum)).
Proof.
  exact (proj1 FromValue_returns_first_match_or_throws _ _ 2
           enum_history_TestEnum).
Defined.

Lemma X7_witness_TestEnum_Four :
  (forall v y,
     SmartEnum.FromValue v (enum_statics TestEnum)
     = Ok y (enum_statics TestEnum) ->
     SmartEnum.FromValue v
       (state_of (SmartEnum.SmartEnum "Four" 4 (enum_statics TestEnum)))
     = Ok y (state_of (SmartEnum.SmartEnum "Four" 4 (enum_statics TestEnum))))
  /\ (forall n ignoreCase y,
        SmartEnum.FromName n ignoreCase (enum_statics TestEnum)
        = Ok y (enum_statics TestEnum) ->
        SmartEnum.FromName n ignoreCase
          (state_of (SmartEnum.SmartEnum "Four" 4 (enum_statics TestEnum)))
        = Ok y
            (state_of (SmartEnum.SmartEnum "Four" 4 (enum_statics TestEnum)))).
Proof.
  refine (proj1 registration_keeps_earlier_lookups
            (enum_statics TestEnum) "Four" 4 _ _).
  vm_compute; reflexivity.
Defined.

Lemma X8_witness_TestEnum :
  SmartEnumInclude.List
    (state_of (SmartEnumInclude.List (include_statics TestEnum)))
  = Ok [mkInst "One" 1; mkInst "Three" 3; mkInst "Two" 2]
      (state_of (SmartEnumInclude.List (include_statics TestEnum)))
  /\ (forall name value s2,
        SmartEnumInclude.SmartEnum name value
          (state_of (SmartEnumInclude.List (include_statics TestEnum)))
        = Ok tt s2 ->
        SmartEnumInclude.List s2
        = Ok ([mkInst "One" 1; mkInst "Three" 3; mkInst "Two" 2]
              ++ [mkInst name value]) s2)
  /\ (forall v,
        returned (SmartEnumInclude.FromValue v
                    (state_of (SmartEnumInclude.List (include_statics TestEnum))))
        = returned (SmartEnumInclude.FromValue v (include_statics TestEnum)))
  /\ (forall n ignoreCase,
        returned (SmartEnumInclude.FromName n ignoreCase
                    (state_of (SmartEnumInclude.List (include_statics TestEnum))))
        = returned (SmartEnumInclude.FromName n ignoreCase
                      (include_statics TestEnum))).
Proof.
  refine (include_List_sorts_only_once (include_statics TestEnum) _ _ _).
  vm_compute; reflexivity.
Defined.

Lemma X9_witness_Flags_5 :
  Forall (fun f => f ∈ instances (statics Flags))
    [mkInst "C" 4; mkInst "A" 1]
  /\ union_of [mkInst "C" 4; mkInst "A" 1] = 5
  /\ disjoint_values [mkInst "C" 4; mkInst "A" 1].
Proof.
  refine (returned_flags_make_up_the_value Flags (statics Flags) false 5
            [mkInst "C" 4; mkInst "A" 1]
            (set_validated true (statics Flags)) _ _);
    vm_compute; reflexivity.
Defined.

Lemma X10_witness_StrictABC_5 :
  SmartFlagEnum.FromValue 5 (set_validated false (statics StrictABC))
  = (if fits 5 (instances (statics StrictABC))
     then Ok (List.filter (contained 5)
                (std_sort SmartFlagEnum.value_greater
                   (instances (statics StrictABC))))
            (set_validated true (statics StrictABC))
     else Throw InvalidFlagEnumValueParseException
            (set_validated true (statics StrictABC)))
  /\ SmartFlagEnum.TryFromValue 5 (set_validated false (statics StrictABC))
     = Ok (if fits 5 (instances (statics StrictABC))
           then (true, List.filter (contained 5)
                         (std_sort SmartFlagEnum.value_greater
                            (instances (statics StrictABC))))
           else (false, []))
         (set_validated true (statics StrictABC)).
Proof.
  refine (single_bit_definitions_FromValue StrictABC (statics StrictABC)
            false 5 _ _ _ _).
  - vm_compute; reflexivity.
  - compute_done.
  - compute_done.
  - lia.
Defined.

Lemma X11_witness_StrictABC_C_or_A :
  SmartFlagEnum.FromValue
    (SmartFlagEnum.operator_or (mkInst "C" 4) (mkInst "A" 1))
    (set_validated false (statics StrictABC))
  = Ok [mkInst "C" 4; mkInst "A" 1] (set_validated true (statics StrictABC)).
Proof.
  refine (FromValue_of_two_combined_flags StrictABC (statics StrictABC) false
            (mkInst "C" 4) (mkInst "A" 1) _ _ _ _ _ _).
  - vm_compute; reflexivity.
  - compute_done.
  - compute_done.
  - compute_done.
  - compute_done.
  - cbn; lia.
Defined.

Lemma X12_witness_Flags_B_A :
  SmartFlagEnum.TryFromName "B, A" false (set_validated true (statics Flags))
  = Ok (resolve (fun token =>
                   first_matching_name token false (instances (statics Flags)))
          (tokens "B, A") [])
      (set_validated true (statics Flags))
  /\ SmartFlagEnum.FromName "B, A" false (set_validated true (statics Flags))
     = (if fst (resolve (fun token =>
                           first_matching_name token false
                             (instances (statics Flags)))
                  (tokens "B, A") [])
        then Ok (snd (resolve (fun token =>
                                 first_matching_name token false
                                   (instances (statics Flags)))
                        (tokens "B, A") []))
               (set_validated true (statics Flags))
        else Throw InvalidFlagEnumValueParseException
               (set_validated true (statics Flags))).
Proof.
  refine (flag_TryFromName_resolves_tokens Flags (statics Flags) true
            "B, A" false _).
  vm_compute; reflexivity.
Defined.

Lemma X13_witness_Flags_5 :
  exists out,
    SmartFlagEnum.FromValue 5 (set_validated false (statics Flags))
    = Ok out (set_validated true (statics Flags))
    /\ SmartFlagEnum.FromName "C, A" false (set_validated true (statics Flags))
       = Ok out (set_validated true (statics Flags)).
Proof.
  refine (flag_names_round_trip Flags (statics Flags) false 5 "C, A"
            (set_validated true (statics Flags)) _ _ _).
  - vm_compute; reflexivity.
  - vm_compute.
    repeat (apply Forall_cons; split; [repeat apply conj; reflexivity|]).
    apply Forall_nil_2.
  - vm_compute; reflexivity.
Defined.

Lemma X14_witness_A_B_3 :
  in_int (union_of [mkInst "A" 1; mkInst "B" 2])
  /\ in_int (Z.land 3 (Z.lnot (union_of [mkInst "A" 1; mkInst "B" 2])))
  /\ (forall out,
        in_int (fst (SmartFlagEnum.decompose_loop
                       [mkInst "A" 1; mkInst "B" 2] 3 out)))
  /\ (forall a b,
        a ∈ [mkInst "A" 1; mkInst "B" 2] ->
        b ∈ [mkInst "A" 1; mkInst "B" 2] ->
        in_int (SmartFlagEnum.operator_or a b))
  /\ (0 < 3 -> in_int (3 - 1)).
Proof.
  refine (flag_arithmetic_stays_in_int [mkInst "A" 1; mkInst "B" 2] 3 _ _).
  - repeat (apply Forall_cons; split; [unfold in_int; cbn; lia|]).
    apply Forall_nil_2.
  - unfold in_int; lia.
Defined.

Lemma X17_witness_SparseFlags :
  exists l s',
    SmartFlagEnumInClass.List SparseFlags (inclass_statics SparseFlags)
    = Ok l s'
    /\ l = instances s'
    /\ Permutation l (instances (inclass_statics SparseFlags))
    /\ definitionsValidated s' = true
    /\ (definitionsValidated (inclass_statics SparseFlags) = false ->
        l = std_sort SmartFlagEnumInClass.value_less
              (instances (inclass_statics SparseFlags))).
Proof.
  refine (inclass_unsafe_types_always_validate SparseFlags
            (inclass_statics SparseFlags) _).
  reflexivity.
Defined.

Lemma X18_witness_Flags_5 :
  (exists y,
     [mkInst "C" 4; mkInst "A" 1] = [y]
     /\ first_with_value 5 (instances (statics Flags)) = Some y)
  \/ (first_with_value 5 (instances (statics Flags)) = None
      /\ Forall (fun f => 0 < Value f) [mkInst "C" 4; mkInst "A" 1]).
Proof.
  refine (decomposition_holds_no_sentinel Flags (statics Flags) false 5
            [mkInst "C" 4; mkInst "A" 1]
            (set_validated true (statics Flags)) _ _);
    vm_compute; reflexivity.
Defined.

Lemma X19_witness_Flags :
  (forall b,
     SmartFlagEnum.List (set_validated b (statics Flags))
     = Ok (map instance_of (definitions Flags))
         (set_validated true (statics Flags)))
  /\ (forall b v,
        SmartFlagEnum.List
          (state_of (SmartFlagEnum.TryFromValue v
                       (set_validated b (statics Flags))))
        = Ok (map instance_of (definitions Flags))
            (set_validated true (statics Flags))
        /\ SmartFlagEnum.List
             (state_of (SmartFlagEnum.FromValue v
                          (set_validated b (statics Flags))))
           = Ok (map instance_of (definitions Flags))
               (set_validated true (statics Flags))
        /\ SmartFlagEnum.List
             (state_of (SmartFlagEnum.FromValueToString v
                          (set_validated b (statics Flags))))
           = Ok (map instance_of (definitions Flags))
               (set_validated true (statics Flags)))
  /\ (forall b names ignoreCase,
        SmartFlagEnum.List
          (state_of (SmartFlagEnum.TryFromName names ignoreCase
                       (set_validated b (statics Flags))))
        = Ok (map instance_of (definitions Flags))
            (set_validated true (statics Flags))
        /\ SmartFlagEnum.List
             (state_of (SmartFlagEnum.FromName names ignoreCase
                          (set_validated b (statics Flags))))
           = Ok (map instance_of (definitions Flags))
               (set_validated true (statics Flags))).
Proof.
  refine (flag_List_keeps_declaration_order Flags (statics Flags) _).
  vm_compute; reflexivity.
Defined.

End further_examples.

(** ** Further tests of the repository, replayed *)

Section further_tests.

(** test: [CombinationAndExplicitValues], the [FromName] part. *)
Example test_Flags_FromName :
  returned (SmartFlagEnum.FromName "A" false (statics Flags))
  = Some [mkInst "A" 1]
  /\ returned (SmartFlagEnum.FromName "A, B" false (statics Flags))
     = Some [mkInst "A" 1; mkInst "B" 2].
Proof. split; vm_compute; reflexivity. Qed.

(** test: [FromName] and [TryFromName] of [TestEnum], under both headers. *)
Example test_TestEnum_FromName :
  returned (SmartEnum.FromName "One" false (enum_statics TestEnum))
  = Some (mkInst "One" 1)
  /\ thrown (SmartEnum.FromName "one" false (enum_statics TestEnum))
     = Some SmartEnumNotFoundException
  /\ returned (SmartEnum.FromName "one" true (enum_statics TestEnum))
     = Some (mkInst "One" 1)
  /\ returned (SmartEnum.TryFromName "Two" false (enum_statics TestEnum))
     = Some (true, Some (mkInst "Two" 2))
  /\ returned (SmartEnum.TryFromName "InvalidName" false
                 (enum_statics TestEnum))
     = Some (false, None)
  /\ returned (SmartEnumInclude.FromName "One" false (include_statics TestEnum))
     = Some (mkInst "One" 1)
  /\ thrown (SmartEnumInclude.FromName "one" false (include_statics TestEnum))
     = Some SmartEnumNotFoundException
  /\ returned (SmartEnumInclude.FromName "one" true (include_statics TestEnum))
     = Some (mkInst "One" 1).
Proof. repeat apply conj; vm_compute; reflexivity. Qed.

(** test: [SwitchOn] with the results "Two" and "Default"; the actions
    assign to [result]. *)
Example test_SwitchOn :
  SmartEnumSwitch.Default (fun _ => "None")
    (SmartEnumSwitch.chain (mkInst "Two" 2)
       (SmartEnumSwitch.cases
          [(mkInst "One" 1, fun _ => "One");
           (mkInst "Two" 2, fun _ => "Two");
           (mkInst "Three" 3, fun _ => "Three")])
       EmptyString)
  = "Two"
  /\ SmartEnumSwitch.Default (fun _ => "Default")
       (SmartEnumSwitch.chain (mkInst "Three" 3)
          (SmartEnumSwitch.cases
             [(mkInst "One" 1, fun _ => "One");
              (mkInst "Two" 2, fun _ => "Two")])
          EmptyString)
     = "Default".
Proof. split; vm_compute; reflexivity. Qed.

End further_tests.
